(** * Tripster bot: a shallow embedding of [server.js]

    The development follows the source file top to bottom: JavaScript
    strings and the few regular expressions the server uses, the records
    exchanged with the remote services, a small state-and-exception monad
    for the asynchronous functions, and then the functions themselves
    ([getAIResponse], [translateText], [getLocationFromGooglePlaces],
    [getHotelsNearPlace], the message builders, [getAIResponseWithMedia]
    and the text branch of the [/webhook] route). *)

From Stdlib Require Import QArith Lqa Ascii String.
From stdpp Require Import base option list numbers strings pretty gmap sorting.

Set Default Proof Using "Type".
Set Warnings "-register-all".
Open Scope N_scope.
Open Scope list_scope.

(** ** JavaScript strings

    A JavaScript string is a sequence of UTF-16 code units.  Literals of
    the source are written as Rocq strings (UTF-8) and decoded by [str]. *)

Abbreviation jsstring := (list N).

Module Js.

(** UTF-8 bytes to UTF-16 code units; ill-formed tails are dropped. *)
Fixpoint utf16_of_utf8 (bs : list N) : list N :=
  match bs with
  | [] => []
  | b0 :: r0 =>
    if b0 <? 128 then b0 :: utf16_of_utf8 r0
    else if b0 <? 224 then
      match r0 with
      | b1 :: r1 => ((b0 mod 32) * 64 + b1 mod 64) :: utf16_of_utf8 r1
      | _ => []
      end
    else if b0 <? 240 then
      match r0 with
      | b1 :: b2 :: r2 =>
        ((b0 mod 16) * 4096 + (b1 mod 64) * 64 + b2 mod 64) :: utf16_of_utf8 r2
      | _ => []
      end
    else
      match r0 with
      | b1 :: b2 :: b3 :: r3 =>
        let cp := (b0 mod 8) * 262144 + (b1 mod 64) * 4096
                  + (b2 mod 64) * 64 + b3 mod 64 in
        let v := cp - 65536 in
        (55296 + v / 1024) :: (56320 + v mod 1024) :: utf16_of_utf8 r3
      | _ => []
      end
  end.

Definition str (s : string) : list N :=
  utf16_of_utf8 (map (fun a => N.of_nat (nat_of_ascii a)) (String.list_ascii_of_string s)).
Global Arguments str : simpl never.

(** Character classes of ECMAScript regular expressions. *)
Definition isDigit (c : N) : bool := (48 <=? c) && (c <=? 57).

Definition isLineTerminator (c : N) : bool :=
  (c =? 10) || (c =? 13) || (c =? 8232) || (c =? 8233).

(** [\s] and [String.prototype.trim]: WhiteSpace and LineTerminator. *)
Definition isWhite (c : N) : bool :=
  ((9 <=? c) && (c <=? 13)) || (c =? 32) || (c =? 160) || (c =? 5760)
  || ((8192 <=? c) && (c <=? 8202)) || (c =? 8232) || (c =? 8233)
  || (c =? 8239) || (c =? 8287) || (c =? 12288) || (c =? 65279).

(** [.] without the [s] flag. *)
Definition isDot (c : N) : bool := negb (isLineTerminator c).

Fixpoint dropWhile (p : N → bool) (s : list N) : list N :=
  match s with
  | [] => []
  | c :: r => if p c then dropWhile p r else s
  end.

Fixpoint takeWhile (p : N → bool) (s : list N) : list N :=
  match s with
  | [] => []
  | c :: r => if p c then c :: takeWhile p r else []
  end.

Definition trimStart (s : list N) : list N := dropWhile isWhite s.
Definition trimEnd (s : list N) : list N := rev (dropWhile isWhite (rev s)).
Definition trim (s : list N) : list N := trimEnd (trimStart s).

Fixpoint startsWith (p s : list N) : bool :=
  match p, s with
  | [], _ => true
  | a :: p', b :: s' => (a =? b) && startsWith p' s'
  | _ :: _, [] => false
  end.

(** [s.includes(p)] *)
Fixpoint includes (p s : list N) : bool :=
  startsWith p s ||
  match s with
  | [] => false
  | _ :: r => includes p r
  end.

(** [s.split(sep)] for a one-unit separator: never the empty array. *)
Fixpoint split (sep : N) (s : list N) : list (list N) :=
  match s with
  | [] => [[]]
  | c :: r =>
    if c =? sep then [] :: split sep r
    else match split sep r with
         | [] => [[c]]
         | l :: ls => (c :: l) :: ls
         end
  end.

(** [s.split(sep)[0]] *)
Definition splitHead (sep : N) (s : list N) : list N :=
  match split sep s with
  | [] => []
  | l :: _ => l
  end.

Fixpoint join (sep : list N) (ls : list (list N)) : list N :=
  match ls with
  | [] => []
  | [l] => l
  | l :: r => l ++ sep ++ join sep r
  end.

(** The first alternative of [alts] that is a prefix of [s]. *)
Fixpoint firstAlt (alts : list (list N)) (s : list N) : option (list N) :=
  match alts with
  | [] => None
  | a :: r => if startsWith a s then Some a else firstAlt r s
  end.

(** [s.replace(/a1|a2|.../, empty)] without the [g] flag, and
    [s.replace(a, empty)] for a string pattern: the leftmost match is
    removed, alternatives being tried in their order at each position. *)
Fixpoint removeFirst (alts : list (list N)) (s : list N) : list N :=
  match firstAlt alts s with
  | Some a => drop (length a) s
  | None =>
    match s with
    | [] => []
    | c :: r => c :: removeFirst alts r
    end
  end.

(** [s.replace(/\*\*/g, empty)] *)
Fixpoint removeBold (s : list N) : list N :=
  match s with
  | 42 :: 42 :: r => removeBold r
  | c :: r => c :: removeBold r
  | [] => []
  end.

(** [x || d] on strings: the empty string is falsy. *)
Definition orElse (x d : list N) : list N :=
  match x with [] => d | _ => x end.

End Js.

Import Js.

(** ** Regular expressions of the numbered-list heuristic *)

Module Regex.

(** The fragment used by the source, with its declarative semantics. *)
Inductive re : Type :=
  | Cls (p : N → bool)
  | Cat (r1 r2 : re)
  | Star (r : re).

Definition Plus (r : re) : re := Cat r (Star r).

Inductive Matches : re → list N → Prop :=
  | MCls p c : p c = true → Matches (Cls p) [c]
  | MCat r1 r2 s1 s2 : Matches r1 s1 → Matches r2 s2 → Matches (Cat r1 r2) (s1 ++ s2)
  | MStarNil r : Matches (Star r) []
  | MStarCons r s1 s2 : Matches r s1 → Matches (Star r) s2 → Matches (Star r) (s1 ++ s2).

Definition isFullStop (c : N) : bool := c =? 46.

(** [/\d+\.\s*.+/] *)
Definition numbered : re :=
  Cat (Plus (Cls isDigit))
      (Cat (Cls isFullStop) (Cat (Star (Cls isWhite)) (Plus (Cls isDot)))).

(** [/^\d+\.\s*/] (the anchor is handled by the caller) *)
Definition numeral : re :=
  Cat (Plus (Cls isDigit)) (Cat (Cls isFullStop) (Star (Cls isWhite))).

(** [/^\d+\.\s+/], the rule as the specification words it *)
Definition numeralSpaced : re :=
  Cat (Plus (Cls isDigit)) (Cat (Cls isFullStop) (Plus (Cls isWhite))).

(** A string some substring of which matches [r]: what [s.match(r)]
    being truthy means for a pattern without anchors. *)
Definition Found (r : re) (s : list N) : Prop :=
  ∃ pre m post, s = pre ++ m ++ post ∧ Matches r m.

(** A string some prefix of which matches [r]. *)
Definition FoundAtStart (r : re) (s : list N) : Prop :=
  ∃ m post, s = m ++ post ∧ Matches r m.

(** *** Executable matchers *)

(** After [\d+\.] : the rest of the string behind the digits and the dot,
    when [s] starts with at least one digit followed by a full stop. *)
Definition afterNumeral (s : list N) : option (list N) :=
  match s with
  | c :: _ =>
    if isDigit c then
      match dropWhile isDigit s with
      | d :: r => if isFullStop d then Some r else None
      | [] => None
      end
    else None
  | [] => None
  end.

(** [\s*.+] at the start of [s]: white space is skipped as long as the
    unit at hand cannot be taken by the dot. *)
Fixpoint spaceThenAny (s : list N) : bool :=
  match s with
  | [] => false
  | c :: r => if isDot c then true else if isWhite c then spaceThenAny r else false
  end.

Definition numberedAt (s : list N) : bool :=
  match afterNumeral s with
  | Some r => spaceThenAny r
  | None => false
  end.

(** [s.match(/\d+\.\s*.+/)] is truthy *)
Fixpoint matchNumbered (s : list N) : bool :=
  numberedAt s ||
  match s with
  | [] => false
  | _ :: r => matchNumbered r
  end.

(** [s.replace(/^\d+\.\s*/, empty)] *)
Definition removeNumeral (s : list N) : list N :=
  match afterNumeral s with
  | Some r => dropWhile isWhite r
  | None => s
  end.

End Regex.

Import Regex.

(** ** Numbered-list extraction (lines 714-716 and 942-944) *)

Definition isListLine (line : list N) : bool := matchNumbered (trim line).

Definition placeOfLine (line : list N) : list N :=
  trim (splitHead 58 (removeBold (removeNumeral line))).

Definition extractPlaces (response : list N) : list (list N) :=
  map placeOfLine (filter (fun line => isListLine line = true) (split 10 response)).

(** The extraction rule as the specification words it: keep the lines
    matching [^\d+\.\s+], strip the numeral, strip the bold markup, take
    the text before the first colon, trim. *)
Module SpecWords.

Definition isListLine (line : list N) : bool :=
  match afterNumeral line with
  | Some (c :: _) => isWhite c
  | _ => false
  end.

Definition extractPlaces (response : list N) : list (list N) :=
  map placeOfLine (filter (fun line => isListLine line = true) (split 10 response)).

End SpecWords.

(** ** Numbers

    JSON numbers are modelled as rationals; [x || d] treats a missing
    value and 0 alike. *)

Definition isZero (q : Q) : bool := Qeq_bool q 0.

(** [n % d]: what is left of [n] when [d] is taken from it as often as
    the quotient, rounded towards zero, says. *)
Definition remainder (n d : Q) : Q :=
  let quotient := (n / d)%Q in
  (n - d * inject_Z (Z.quot (Qnum quotient) (Zpos (Qden quotient))))%Q.

(** [x || 0] *)
Definition orZero (x : option Q) : Q := default 0%Q x.

(** [x || "N/A"] and [x || null]: the falsy numbers (missing, 0) give
    [None], which stands for the replacement value. *)
Definition orNA (x : option Q) : option Q :=
  match x with
  | Some q => if isZero q then None else Some q
  | None => None
  end.

(** ** Records of the Places and Custom Search services *)

(** [geometry.location]: either coordinate may be missing. *)
Record LatLng := { lat : option Q; lng : option Q }.

(** The [geometry] field of an entry, when it is there (truthy); its
    [location] may be missing. *)
Record Geometry := { location : option LatLng }.

(** One entry of [response.data.results] (text search and nearby search);
    [photos] holds the [photo_reference] of each photo, when it has one. *)
Record Candidate := {
  place_id : list N;
  cname : list N;
  geometry : option Geometry;
  formatted_address : option (list N);
  vicinity : option (list N);
  photos : list (option (list N));
  rating : option Q;
  user_ratings_total : option Q;
}.

(** [response.data.result] of the details request. *)
Record Details := {
  dname : list N;
  dformatted_address : option (list N);
  dphotos : list (option (list N));
  drating : option Q;
  duser_ratings_total : option Q;
  weekday_text : option (list (list N));
}.

Record Item := { title : list N; link : list N; snippet : list N }.

(** The object returned by [getLocationFromGooglePlaces]. *)
Record PlaceRecord := {
  placeId : list N;
  name : list N;
  latitude : option Q;
  longitude : option Q;
  address : list N;
  photoReference : option (list N);
  prating : option Q;
  userRatingsTotal : Q;
}.

(** The objects returned by [getHotelsNearPlace]. *)
Record HotelRecord := {
  hname : list N;
  haddress : list N;
  hphotoReference : option (list N);
  hlatitude : option Q;
  hlongitude : option Q;
  hrating : option Q;
  huserRatingsTotal : Q;
}.

(** ** Sorting by rating

    The comparator of lines 180 and 313:
    [(b.rating || 0) - (a.rating || 0) || (b.user_ratings_total || 0) - (a.user_ratings_total || 0)]. *)
Definition byRating (a b : Candidate) : Q :=
  let d := (orZero (rating b) - orZero (rating a))%Q in
  if isZero d
  then (orZero (user_ratings_total b) - orZero (user_ratings_total a))%Q
  else d.

(** [Array.prototype.sort] is stable, and for a consistent comparator its
    result is the one stable ordering; inserting from the right, each
    element in front of the first one it does not have to follow,
    computes it. *)
Fixpoint insertBy {A} (cmp : A → A → Q) (x : A) (l : list A) : list A :=
  match l with
  | [] => [x]
  | y :: r => if Qle_bool (cmp x y) 0 then x :: l else y :: insertBy cmp x r
  end.

Definition sortBy {A} (cmp : A → A → Q) (l : list A) : list A :=
  foldr (insertBy cmp) [] l.

Definition hasGeometry (c : Candidate) : bool :=
  match geometry c with Some _ => true | None => false end.

(** [.filter(c => c.geometry).sort(...)] *)
Definition rankCandidates (l : list Candidate) : list Candidate :=
  sortBy byRating (filter (fun c => hasGeometry c = true) l).

(** Lines 186-195.  Reading [place.geometry.location.lat] of an entry
    without geometry, or whose geometry has no location, raises, which the
    enclosing [catch] turns into [null]; a coordinate that the location
    does not hold is read as [undefined]. *)
Definition placeRecord (place : Candidate) : option PlaceRecord :=
  match geometry place ≫= location with
  | Some spot =>
    Some {| placeId := place_id place;
            name := cname place;
            latitude := lat spot;
            longitude := lng spot;
            address := orElse (default [] (formatted_address place)) (str "ไม่มีข้อมูลที่อยู่");
            photoReference := head (photos place) ≫= id;
            prating := orNA (rating place);
            userRatingsTotal := orZero (user_ratings_total place) |}
  | None => None
  end.

(** Lines 175-199: what [getLocationFromGooglePlaces] makes of the
    [results] field of a text-search response ([None]: field absent). *)
Definition chooseCandidate (candidates : option (list Candidate)) : option PlaceRecord :=
  match candidates with
  | Some ((_ :: _) as l) =>
    match rankCandidates l with
    | place :: _ => placeRecord place
    | [] => None
    end
  | _ => None
  end.

(** Lines 315-323. *)
Definition hotelRecord (hotel : Candidate) : HotelRecord :=
  {| hname := cname hotel;
     haddress := orElse (default [] (vicinity hotel)) (str "ไม่มีข้อมูลที่อยู่");
     hphotoReference := head (photos hotel) ≫= id;
     hlatitude := orNA ((geometry hotel ≫= location) ≫= lat);
     hlongitude := orNA ((geometry hotel ≫= location) ≫= lng);
     hrating := orNA (rating hotel);
     huserRatingsTotal := orZero (user_ratings_total hotel) |}.

(** Lines 311-323: what [getHotelsNearPlace] makes of a nearby-search
    result list. *)
Definition chooseHotels (results : list Candidate) : list HotelRecord :=
  map hotelRecord (take 3 (rankCandidates results)).

Definition northernProvinces : list (list N) :=
  [str "เชียงใหม่"; str "เชียงราย"; str "ลำปาง"; str "ลำพูน"; str "แม่ฮ่องสอน";
   str "น่าน"; str "พะเยา"; str "แพร่"; str "อุตรดิตถ์"].

(** ** Chat history *)

Inductive Role := user | model.

Record Turn := { role : Role; text : list N }.

Global Instance Role_eq_dec : EqDecision Role.
Proof. solve_decision. Defined.

Global Instance Turn_eq_dec : EqDecision Turn.
Proof. solve_decision. Defined.

(** The [chatHistory/<userId>] document. *)
Record Doc := { messages : list Turn; lastUpdated : N }.

(** Firestore's [arrayUnion(e1, ..., en)]: each element that the array
    does not hold yet is added at its end. *)
Definition arrayUnion (stored elems : list Turn) : list Turn :=
  foldl (fun acc e => if decide (e ∈ acc) then acc else acc ++ [e]) stored elems.

(** [a.slice(-n)] *)
Definition sliceLast {A} (n : nat) (l : list A) : list A :=
  drop (length l - n) l.

(** ** Reply messages *)

Inductive Action :=
  | MessageAction (label text : list N)
  | UriAction (label uri : list N).

Record QuickReply := { items : list Action }.

(** Components of a flex bubble; presentation attributes (weight, size,
    colour, aspect ratio) are left out. *)
Inductive Component :=
  | CText (text : list N)
  | CButton (label uri : list N).

Record Bubble := { hero : list N; bodyContents : list Component; footer : list Component }.

Inductive FlexContents :=
  | OneBubble (b : Bubble)
  | Carousel (bubbles : list Bubble).

Record Area := { ax : N; ay : N; awidth : N; aheight : N }.

Inductive Body :=
  | Text (text : list N)
  | Flex (altText : list N) (contents : FlexContents)
  | Location (title address : list N) (latitude longitude : Q)
  | Imagemap (baseUrl altText : list N) (width height : N) (actions : list (list N * Area))
  | Image (originalContentUrl previewImageUrl : list N).

Record Message := { body : Body; quickReply : option QuickReply }.

Definition plain (b : Body) : Message := {| body := b; quickReply := None |}.

Definition isFlex (m : Message) : bool :=
  match body m with Flex _ _ => true | _ => false end.

(** Lines 633-662. *)
Definition createQuickReply (lang : list N) : QuickReply :=
  let th := bool_decide (lang = str "th") in
  {| items :=
     [ MessageAction (if th then str "แนะนำที่เที่ยว" else str "Recommend Places") (str "แนะนำที่เที่ยว");
       MessageAction (if th then str "แนะนำโรงแรม" else str "Recommend Hotels") (str "แนะนำโรงแรม");
       UriAction (if th then str "สร้างแผนการเดินทาง" else str "Create Travel Plan")
                 (str "https://tripster-plans.netlify.app/") ] |}.

(** ** Remote calls and the environment *)

Inductive Call :=
  | LoadingStart (chatId : list N) (seconds : Q)
  | StoreGet (userId : list N)
  | StoreSet (userId : list N)
  | Token
  | Detect (text : list N)
  | Translate (text target : list N)
  | Complete (contents : list Turn)
  | TextSearch (query type : list N)
  | PlaceDetails (placeId : list N)
  | NearbySearch (latitude longitude : option Q) (radius : N) (type : list N)
  | CustomSearch (q : list N)
  | Reply (replyToken : list N) (messages : list Message).

(** What the process cannot decide by itself.  Every answer of a remote
    service may depend on the instant of the request, counted in calls
    issued so far, so that a service need not answer twice alike; [None]
    is a failed request (the promise rejects). *)
Record Env := {
  toLowerCase : list N → list N;
  numberToString : Q → list N;
  encodeURIComponent : list N → list N;
  localeDate : nat → list N;
  clock : nat → N;
  placesKey : list N;
  loading : nat → bool;
  storeUp : nat → bool;
  accessToken : nat → option (list N);
  detect : nat → list N → option (list N);
  translate : nat → list N → list N → option (list N);
  complete : nat → list Turn → option (option (list N));
  textSearch : nat → list N → list N → option (option (list Candidate));
  placeDetails : nat → list N → option (option Details);
  nearbySearch : nat → option Q → option Q → option (list Candidate);
  customSearch : nat → list N → option (option (list Item));
  lineReply : nat → bool;
}.

Record World := { store : gmap (list N) Doc; calls : list Call }.

(** ** The monad of asynchronous functions: state and exceptions *)

Inductive Res (A : Type) :=
  | Ok (a : A)
  | Throw.
Arguments Ok {A} a.
Arguments Throw {A}.

Definition M (A : Type) : Type := World → Res A * World.

Definition ret {A} (a : A) : M A := fun w => (Ok a, w).

Definition bind {A B} (m : M A) (k : A → M B) : M B :=
  fun w => match m w with
           | (Ok a, w') => k a w'
           | (Throw, w') => (Throw, w')
           end.

Definition throw {A} : M A := fun w => (Throw, w).

(** [try { m } catch { h }] *)
Definition tryCatch {A} (m h : M A) : M A :=
  fun w => match m w with
           | (Ok a, w') => (Ok a, w')
           | (Throw, w') => h w'
           end.

Notation "'let*' x ':=' m 'in' k" := (bind m (fun x => k))
  (at level 10, x name, m at level 100, k at level 200).

(** [Promise.all(l.map(f))], the requests being issued in list order. *)
Fixpoint mapM {A B} (f : A → M B) (l : list A) : M (list B) :=
  match l with
  | [] => ret []
  | x :: r => let* y := f x in let* ys := mapM f r in ret (y :: ys)
  end.

Definition logged (c : Call) (w : World) : World :=
  {| store := store w; calls := calls w ++ [c] |}.

(** A request [c] answered by [answer] at the present instant. *)
Definition remote {A} (c : Call) (answer : nat → option A) : M A :=
  fun w => match answer (length (calls w)) with
           | Some a => (Ok a, logged c w)
           | None => (Throw, logged c w)
           end.

Definition instant : M nat := fun w => (Ok (length (calls w)), w).

(** Plain data, as [JSON.parse] yields it. *)
Inductive Json :=
  | JsonNull
  | JsonBool (b : bool)
  | JsonNum (q : Q)
  | JsonStr (s : list N)
  | JsonArr (l : list Json)
  | JsonObj (fields : list (list N * Json)).

(** Whether plain data is truthy: [null], [false], 0 and the empty string
    are not. *)
Definition truthy (d : Json) : bool :=
  match d with
  | JsonNull => false
  | JsonBool b => b
  | JsonNum q => negb (isZero q)
  | JsonStr [] => false
  | _ => true
  end.

(** The numbers that are not finite. *)
Inductive NonFinite := NaN | Infinity | MinusInfinity.

(** The values [translateText] may be handed: the primitive values,
    arrays and objects of plain data, and any other value (a symbol, a
    function, an object that is not plain data, such as a cyclic
    structure), given by what lines 140-141 observe of it: whether
    [JSON.stringify] returns on it, and the string its [toString] method
    answers with ([None]: the method is missing, not callable or
    raises).  The method is taken to answer with a string, as every
    built-in one does. *)
Inductive JsValue :=
  | JUndefined
  | JNull
  | JBool (b : bool)
  | JNum (q : Q)
  | JNonFinite (x : NonFinite)
  | JBigInt (z : Z)
  | JStr (s : list N)
  | JArr (l : list Json)
  | JObj (fields : list (list N * Json))
  | JOther (serialisable : bool) (conversion : option (list N)).

Section Server.

Context (env : Env).

(** *** Firestore *)

(** [getDoc(doc(db, "chatHistory", userId))]: [None] when the document
    does not exist. *)
Definition getDoc (userId : list N) : M (option Doc) :=
  fun w => if storeUp env (length (calls w))
           then (Ok (store w !! userId), logged (StoreGet userId) w)
           else (Throw, logged (StoreGet userId) w).

(** [setDoc(ref, { messages: arrayUnion(...elems), lastUpdated: new Date() }, { merge: true })] *)
Definition setDocMerge (userId : list N) (elems : list Turn) : M unit :=
  fun w =>
    let n := length (calls w) in
    if storeUp env n
    then
      let old := default [] (messages <$> store w !! userId) in
      let d := {| messages := arrayUnion old elems; lastUpdated := clock env n |} in
      (Ok (), {| store := <[userId := d]> (store w); calls := calls w ++ [StoreSet userId] |})
    else (Throw, logged (StoreSet userId) w).

(** *** Lines 79-88 *)
Definition getAccessToken : M (option (list N)) :=
  tryCatch (let* t := remote Token (accessToken env) in ret (Some t)) (ret None).

Definition tonePrompt : list N :=
  [10] ++ str "    คุณคือ Tripster เป็นผู้ชาย, ผู้ช่วยด้านการท่องเที่ยวภาคเหนือของประเทศไทย." ++
  [10] ++ str "    ตอบให้สั้น เข้าใจง่าย ใช้ภาษาสุภาพ เหมาะกับทุกเพศทุกวัย และตอบตามข้อเท็จจริง." ++
  [10] ++ str "    ใช้ประวัติการสนทนาก่อนหน้าเพื่อปรับคำแนะนำตามความชอบของผู้ใช้." ++
  [10] ++ str "    หากไม่มีข้อมูลเพียงพอ ให้แนะนำสถานที่ยอดนิยมในภาคเหนือของประเทศไทยและแจ้งว่าเป็นข้อมูลทั่วไป." ++
  [10] ++ str "  ".

Definition userTurn (userMessage : list N) : Turn :=
  {| role := user;
     text := tonePrompt ++ [10; 10] ++ str "คำถามของผู้ใช้: " ++ userMessage |}.

(** Lines 99-104: the history handed to the model. *)
Definition recentHistory (userDoc : option Doc) (previousMessages : list Turn) : list Turn :=
  match userDoc with
  | Some d =>
    let chatHistory := messages d in
    if decide (10 < length chatHistory)%nat then sliceLast 10 chatHistory else chatHistory
  | None => previousMessages
  end.

(** *** Lines 90-136 *)
Definition getAIResponse (userId userMessage : list N) (previousMessages : list Turn)
  : M (list N) :=
  let* accessToken := getAccessToken in
  match accessToken with
  | None | Some [] => ret (str "ระบบขัดข้อง กรุณาลองใหม่ภายหลัง")
  | Some _ =>
    tryCatch
      (let* userDoc := getDoc userId in
       let chatHistory := recentHistory userDoc previousMessages in
       let messages := chatHistory ++ [userTurn userMessage] in
       let* response := remote (Complete messages) (λ n, complete env n messages) in
       let aiResponse := orElse (default [] response) (str "ขออภัย ฉันไม่สามารถให้ข้อมูลได้") in
       let* _ := setDocMerge userId (messages ++ [{| role := model; text := aiResponse |}]) in
       ret aiResponse)
      (ret (str "ระบบมีปัญหา กรุณาลองใหม่"))
  end.

(** *** Lines 138-155 *)

(** The strings of a list of conversions, when none of them raised. *)
Definition allOf (parts : list (option (list N))) : option (list (list N)) :=
  foldr (fun part rest =>
           match part, rest with
           | Some s, Some l => Some (s :: l)
           | _, _ => None
           end) (Some []) parts.

(** The conversion of plain data to a string, [None] when it raises.
    An array joins the conversions of its elements, [null] counting as the
    empty string.  An object has the method of [Object.prototype], unless
    it has a key [toString] of its own: the value of that key, being
    data, is not callable, and the conversion raises. *)
Fixpoint jsonToString (d : Json) : option (list N) :=
  match d with
  | JsonNull => Some (str "null")
  | JsonBool b => Some (if b then str "true" else str "false")
  | JsonNum q => Some (numberToString env q)
  | JsonStr s => Some s
  | JsonArr l =>
    join [44] <$> allOf (map (fun e => match e with
                                       | JsonNull => Some []
                                       | _ => jsonToString e
                                       end) l)
  | JsonObj fields =>
    if bool_decide (str "toString" ∈ map fst fields) then None
    else Some (str "[object Object]")
  end.

(** Whether [JSON.stringify(v)] returns: it raises on a [BigInt], never on
    the other primitive values nor on plain data. *)
Definition serialises (v : JsValue) : bool :=
  match v with
  | JBigInt _ => false
  | JOther serialisable _ => serialisable
  | _ => true
  end.

(** [v.toString()]; [None] when the call raises, as it does on
    [undefined] and [null]. *)
Definition toString (v : JsValue) : option (list N) :=
  match v with
  | JUndefined | JNull => None
  | JBool b => Some (if b then str "true" else str "false")
  | JNum q => Some (numberToString env q)
  | JNonFinite NaN => Some (str "NaN")
  | JNonFinite Infinity => Some (str "Infinity")
  | JNonFinite MinusInfinity => Some (str "-Infinity")
  | JBigInt z => Some (str (pretty z))
  | JStr s => Some s
  | JArr l => jsonToString (JsonArr l)
  | JObj fields => jsonToString (JsonObj fields)
  | JOther _ conversion => conversion
  end.

(** [text?.toString()]: the outer [None] is a call that raises, the inner
    one is [undefined]. *)
Definition optToString (v : JsValue) : option (option (list N)) :=
  match v with
  | JUndefined | JNull => Some None
  | _ => Some <$> toString v
  end.

Record Translated := { ttext : list N; lang : list N }.

Definition invalidText : list N := str "ข้อความไม่ถูกต้อง".

Definition translateText (text : JsValue) (targetLang : option (list N)) : M Translated :=
  match text with
  | JStr s =>
    tryCatch
      (let* sourceLang := remote (Detect s) (λ n, detect env n s) in
       match targetLang with
       | None | Some [] => ret {| ttext := s; lang := sourceLang |}
       | Some target =>
         if decide (target = sourceLang) then ret {| ttext := s; lang := sourceLang |}
         else
           let* translation := remote (Translate s target) (λ n, translate env n s target) in
           ret {| ttext := translation; lang := target |}
       end)
      (ret {| ttext := s; lang := str "th" |})
  | _ =>
    if serialises text then
      match optToString text with
      | Some converted =>
        ret {| ttext := orElse (default [] converted) invalidText; lang := str "th" |}
      | None => throw
      end
    else throw
  end.

(** *** Lines 157-204 *)

(** [placeName.trim().replace(/\*\*/g, empty).split(":")[0]] *)
Definition cleanPlaceName (placeName : list N) : list N :=
  splitHead 58 (removeBold (trim placeName)).

(** [northernProvinces.some(p => s.toLowerCase().includes(p.toLowerCase()))] *)
Definition someProvince (s : list N) : bool :=
  existsb (fun province => includes (toLowerCase env province) (toLowerCase env s))
          northernProvinces.

Definition searchQueryOf (placeName : list N) : list N :=
  let clean := cleanPlaceName placeName in
  if someProvince clean then clean else clean ++ str " ภาคเหนือ Thailand".

Definition tourist_attraction : list N := str "tourist_attraction".

Definition getLocationFromGooglePlaces (placeName type : list N) : M (option PlaceRecord) :=
  let searchQuery := searchQueryOf placeName in
  tryCatch
    (let* candidates := remote (TextSearch searchQuery type)
                               (λ n, textSearch env n searchQuery type) in
     ret (chooseCandidate candidates))
    (ret None).

(** *** Lines 206-236 (the fields [types], [website] and [url] have no
    reader in this file and are left out) *)
Record PlaceDetail := {
  pdName : list N;
  pdAddress : option (list N);
  pdPhotoReference : option (list N);
  pdRating : option Q;
  pdUserRatingsTotal : option Q;
  pdOpeningHours : option (list (list N));
}.

Definition getPlaceDetails (placeId : list N) : M (option PlaceDetail) :=
  tryCatch
    (let* result := remote (PlaceDetails placeId) (λ n, placeDetails env n placeId) in
     ret (match result with
          | Some place =>
            Some {| pdName := dname place;
                    pdAddress := dformatted_address place;
                    pdPhotoReference := head (dphotos place) ≫= id;
                    pdRating := drating place;
                    pdUserRatingsTotal := duser_ratings_total place;
                    pdOpeningHours := weekday_text place |}
          | None => None
          end))
    (ret None).

(** *** Lines 239-279 *)
Definition hotelContext : list N := str "โรงแรม".
Definition placeContext : list N := str "สถานที่ท่องเที่ยว".

Definition searchPlaceWithCustomSearch (placeName context : list N) : M (list Item) :=
  tryCatch
    (let query :=
       if decide (context = hotelContext)
       then placeName ++ str " โรงแรม รีวิว ประเทศไทย"
       else placeName ++ [32] ++ context ++ str " ภาคเหนือ ประเทศไทย" in
     let* items := remote (CustomSearch query) (λ n, customSearch env n query) in
     ret (match items with
          | Some ((_ :: _) as l) =>
            filter (fun item =>
                      let text := toLowerCase env (title item ++ [32] ++ snippet item) in
                      includes (toLowerCase env placeName) text
                      && (if decide (context = hotelContext)
                          then includes hotelContext text else true) = true) l
          | _ => []
          end))
    (ret []).

(** *** Lines 281-330 *)

Definition fallbackLatitude : Q := 187883 # 10000.
Definition fallbackLongitude : Q := 989857 # 10000.

(** Lines 282-299: the coordinates the nearby search is centred on. *)
Definition searchLocationOf (placeName : list N) : M (option Q * option Q) :=
  let* first := getLocationFromGooglePlaces placeName tourist_attraction in
  let* second :=
    match first with
    | Some _ => ret first
    | None =>
      let* chiangMai := getLocationFromGooglePlaces (str "Chiang Mai, Thailand") tourist_attraction in
      match chiangMai with
      | Some _ => ret chiangMai
      | None => getLocationFromGooglePlaces (str "Bangkok, Thailand") tourist_attraction
      end
    end in
  ret (match second with
       | Some searchLocation => (latitude searchLocation, longitude searchLocation)
       | None => (Some fallbackLatitude, Some fallbackLongitude)
       end).

Definition lodging : list N := str "lodging".

Definition getHotelsNearPlace (placeName : list N) : M (list HotelRecord) :=
  let* searchLocation := searchLocationOf placeName in
  let '(la, lo) := searchLocation in
  tryCatch
    (let* results := remote (NearbySearch la lo 20000 lodging)
                            (λ n, nearbySearch env n la lo) in
     ret (chooseHotels results))
    (ret []).

(** *** Lines 332-340 *)
Definition getPhotoUrl (photoReference : option (list N)) : list N :=
  match photoReference with
  | None | Some [] => str "https://example.com/placeholder.jpg"
  | Some r =>
    str "https://maps.googleapis.com/maps/api/place/photo?maxwidth=400&photo_reference="
    ++ r ++ str "&key=" ++ placesKey env
  end.

Definition createGoogleMapsUrl (latitude longitude : option Q) (placeName : list N)
  : option (list N) :=
  match orNA latitude, orNA longitude with
  | Some la, Some lo =>
    Some (str "https://www.google.com/maps/search/?api=1&query="
          ++ numberToString env la ++ [44] ++ numberToString env lo
          ++ str "&query_place=" ++ encodeURIComponent env placeName)
  | _, _ => None
  end.

(** *** Lines 398-415 *)
(** Lines 398-402: the seconds requested, [None] being an argument left
    out. *)
Definition loadingSeconds (seconds : option Q) : Q :=
  let seconds := default 5%Q seconds in
  if negb (Qle_bool 5 seconds) || negb (Qle_bool seconds 60)
     || negb (isZero (remainder seconds 5))
  then 5%Q else seconds.

Definition startLoadingAnimation (userId : list N) (seconds : option Q) : M bool :=
  let seconds := loadingSeconds seconds in
  tryCatch
    (let* _ := remote (LoadingStart userId seconds)
                      (λ n, if loading env n then Some () else None) in
     ret true)
    (ret false).

(** *** Lines 417-441.  Every message of this file carries a type and a
    well-formed quick reply, so the checks reduce to the one on the text
    of text messages. *)
Definition validMessage (msg : Message) : bool :=
  match body msg with
  | Text [] => false
  | _ => true
  end.

Definition sendToLine (replyToken : list N) (messages : list Message) : M unit :=
  if forallb validMessage messages
  then remote (Reply replyToken messages) (λ n, if lineReply env n then Some () else None)
  else throw.

(** *** Lines 468-509.  The argument is a place record, possibly
    overwritten by the fields of its details ([{...locationData, ...details}]). *)
Record PlaceData := {
  dataName : list N;
  dataAddress : option (list N);
  dataPhotoReference : option (list N);
  dataRating : option Q;
  dataUserRatingsTotal : option Q;
  dataOpeningHours : option (list (list N));
  dataLatitude : option Q;
  dataLongitude : option Q;
}.

Definition placeDataOf (locationData : PlaceRecord) (details : option PlaceDetail) : PlaceData :=
  match details with
  | Some d =>
    {| dataName := pdName d;
       dataAddress := pdAddress d;
       dataPhotoReference := pdPhotoReference d;
       dataRating := pdRating d;
       dataUserRatingsTotal := pdUserRatingsTotal d;
       dataOpeningHours := pdOpeningHours d;
       dataLatitude := latitude locationData;
       dataLongitude := longitude locationData |}
  | None =>
    {| dataName := name locationData;
       dataAddress := Some (address locationData);
       dataPhotoReference := photoReference locationData;
       dataRating := prating locationData;
       dataUserRatingsTotal := Some (userRatingsTotal locationData);
       dataOpeningHours := None;
       dataLatitude := latitude locationData;
       dataLongitude := longitude locationData |}
  end.

(** A number or its replacement inside a template literal. *)
Definition numberOrNA (x : option Q) : list N :=
  match orNA x with
  | Some q => numberToString env q
  | None => str "N/A"
  end.

(** An optional string inside a template literal. *)
Definition interpolate (x : option (list N)) : list N := default (str "undefined") x.

Definition mapButton (mapUrl : option (list N)) : list Component :=
  match mapUrl with
  | Some uri => [CButton (str "ดูในแผนที่") uri]
  | None => []
  end.

Definition createPlaceFlexMessage (placeData : PlaceData) : Message :=
  let photoUrl := getPhotoUrl (dataPhotoReference placeData) in
  let contents :=
    [ CText (dataName placeData);
      CText (str "ที่อยู่: " ++ interpolate (dataAddress placeData));
      CText (str "เรตติ้ง: " ++ numberOrNA (dataRating placeData)
             ++ str " (รีวิว: " ++ numberOrNA (dataUserRatingsTotal placeData) ++ str ")");
      CText (str "ชั่วโมงเปิด/ปิด: "
             ++ match dataOpeningHours placeData with
                | Some hours => join [44] hours
                | None => str "ไม่มีข้อมูล"
                end) ] in
  let mapUrl := createGoogleMapsUrl (dataLatitude placeData) (dataLongitude placeData)
                                    (dataName placeData) in
  plain (Flex (str "ข้อมูลสถานที่: " ++ dataName placeData)
              (OneBubble {| hero := photoUrl;
                            bodyContents := contents ++ mapButton mapUrl;
                            footer := [] |})).

(** *** Lines 511-572 *)

(** [[...new Set(places)]]: first occurrences, in order. *)
Definition unique (places : list (list N)) : list (list N) :=
  foldl (fun acc p => if decide (p ∈ acc) then acc else acc ++ [p]) [] places.

Definition noPlaces : list N := str "ขออภัย ไม่พบสถานที่ท่องเที่ยวที่แนะนำในขณะนี้".
Definition noHotels : list N := str "ขออภัย ไม่พบโรงแรมที่แนะนำในขณะนี้".

Definition placeBubble (place : PlaceRecord) : Bubble :=
  {| hero := getPhotoUrl (photoReference place);
     bodyContents :=
       [ CText (name place);
         CText (str "สถานที่ท่องเที่ยวยอดนิยม");
         CText (str "ที่อยู่: " ++ address place);
         CText (str "เรตติ้ง: " ++ numberOrNA (prating place)) ];
     footer := mapButton (createGoogleMapsUrl (latitude place) (longitude place) (name place)) |}.

Definition createRecommendationCarousel (places : list (list N)) : M Message :=
  let uniquePlaces := unique places in
  let* found := mapM (fun place => getLocationFromGooglePlaces place tourist_attraction)
                     uniquePlaces in
  let locationData := omap id found in
  match locationData with
  | [] => ret (plain (Text noPlaces))
  | _ => ret (plain (Flex (str "แนะนำที่เที่ยว") (Carousel (map placeBubble locationData))))
  end.

(** *** Lines 574-631 *)
Definition hotelBubble (hotel : HotelRecord) : Bubble :=
  {| hero := getPhotoUrl (hphotoReference hotel);
     bodyContents :=
       [ CText (hname hotel);
         CText (str "โรงแรมแนะนำ");
         CText (str "ที่อยู่: " ++ haddress hotel);
         CText (str "เรตติ้ง: " ++ numberOrNA (hrating hotel)) ];
     footer := mapButton (match orNA (hlatitude hotel), orNA (hlongitude hotel) with
                          | Some _, Some _ =>
                            createGoogleMapsUrl (hlatitude hotel) (hlongitude hotel) (hname hotel)
                          | _, _ => None
                          end) |}.

Definition createHotelRecommendationCarousel (hotels : list HotelRecord) : M Message :=
  match hotels with
  | [] => ret (plain (Text noHotels))
  | _ => ret (plain (Flex (str "แนะนำโรงแรม") (Carousel (map hotelBubble hotels))))
  end.

(** *** Lines 664-1003: the dispatcher *)

(** The second argument of [getAIResponseWithMedia]: the text of a text
    message, or the message object of another event with its [type]. *)
Inductive UserMessage :=
  | UText (s : list N)
  | UObject (type : list N).

Definition withQuickReply (text lang : list N) : Message :=
  {| body := Text text; quickReply := Some (createQuickReply lang) |}.

Definition region : list N := str "ภาคเหนือ".

(** Lines 699 and 800. *)
Definition isNorthern (destination : list N) : bool :=
  someProvince destination || includes region (toLowerCase env destination).

Definition regionGuidance : list N :=
  str "ขออภัยครับ ผมให้ข้อมูลเฉพาะสถานที่ในภาคเหนือเท่านั้น ลองระบุสถานที่ในภาคเหนือ เช่น เชียงใหม่ หรือ เชียงราย".

Definition moreInfo : list N :=
  str "ต้องการดูข้อมูลเพิ่มเติมหรือไม่? ลองเลือกคำสั่งด้านล่างเลยครับ!".

(** [new Date().toLocaleDateString("th-TH", ...)] inside the source note. *)
Definition sourceNote : M (list N) :=
  let* n := instant in
  ret (str "ข้อมูลนี้มาจาก Google Places API (ข้อมูล ณ วันที่ " ++ localeDate env n ++ str ")" ++ [10]).

(** [results.slice(0, 3).map(r => `- ${r.title}: ${r.link}`).join("\n")] *)
Definition searchLinksOf (results : list Item) : list N :=
  join [10] (map (fun result => str "- " ++ title result ++ str ": " ++ link result)
                 (take 3 results)).

(** The text message with the search links, pushed when [searchResults]
    is not empty. *)
Definition searchMessageFor {A} (searchResults : list A) (heading : list N)
    (results : list Item) (detectedLang : list N) : M (list Message) :=
  match searchResults with
  | [] => ret []
  | _ =>
    let* searchMessage := translateText (JStr (heading ++ [10] ++ searchLinksOf results))
                                        (Some detectedLang) in
    ret [plain (Text (ttext searchMessage))]
  end.

Definition orSorry (carousel : Message) (sorry : list N) : Message :=
  if isFlex carousel then carousel else plain (Text sorry).

(** Lines 689-694. *)
Definition preferencesOf (userMessage : list N) : list (list N) :=
  (if includes (str "ธรรมชาติ") userMessage then [str "natural_feature"] else [])
  ++ (if includes (str "วัฒนธรรม") userMessage then [str "museum|church|historical"] else [])
  ++ (if includes (str "ผจญภัย") userMessage then [str "park|amusement_park"] else []).

(** Lines 717-721 and 945-949. *)
Definition resolvePlaces (places : list (list N)) : M (list (list N) * list (list Item)) :=
  let* locationData := mapM (fun place => getLocationFromGooglePlaces place tourist_attraction)
                            places in
  let validPlaces := map name (omap id locationData) in
  let* searchResults := mapM (fun place => searchPlaceWithCustomSearch place placeContext)
                             validPlaces in
  ret (validPlaces, searchResults).

Definition placePrefixes : list (list N) :=
  [str "แนะนำที่เที่ยว"; str "แนะนำสถานที่"; str "ขอที่เที่ยว"].

Definition isRecommendPlaces (userMessage : list N) : bool :=
  existsb (fun p => startsWith p userMessage) placePrefixes.

Definition placesDestination (userMessage : list N) : list N :=
  orElse (trim (removeFirst placePrefixes userMessage)) region.

(** Lines 696-753. *)
Definition recommendPlaces (userId userMessage detectedLang : list N) : M (list Message) :=
  let destination := placesDestination userMessage in
  if negb (isNorthern destination) then
    let* errorMsg := translateText (JStr regionGuidance) (Some detectedLang) in
    ret [withQuickReply (ttext errorMsg) detectedLang]
  else
    let preferences := preferencesOf userMessage in
    let prompt :=
      str "แนะนำสถานที่ท่องเที่ยวยอดนิยม 5 แห่งใน " ++ destination ++ str " ภาคเหนือของประเทศไทย"
      ++ match preferences with
         | [] => []
         | _ => str " ที่เหมาะกับ " ++ join (str ", ") preferences
         end in
    let* initialResponse := getAIResponse userId prompt [] in
    let places := extractPlaces initialResponse in
    let* resolved := resolvePlaces places in
    let '(validPlaces, searchResults) := resolved in
    let* hotels := getHotelsNearPlace destination in
    let* placeCarousel := createRecommendationCarousel (take 5 validPlaces) in
    let* hotelCarousel := createHotelRecommendationCarousel (take 5 hotels) in
    let* note := sourceNote in
    let* followUpQuestions :=
      translateText
        (JStr (note
               ++ str "ขอบคุณที่สนใจ! ช่วยบอกเพิ่มเติมหน่อยครับ:" ++ [10]
               ++ str "- งบประมาณต่อวัน (เช่น ต่ำกว่า 2000 บาท)" ++ [10]
               ++ str "- ความชอบ (เช่น ธรรมชาติ, วัฒนธรรม)" ++ [10]
               ++ str "- เดินทางกับใคร (เช่น ครอบครัว, เพื่อน)" ++ [10]
               ++ str "- วิธีการเดินทาง (เช่น รถยนต์, รถไฟ)" ++ [10]
               ++ str "กรุณาพิมพ์คำตอบตามลำดับด้วยคั่นด้วยเครื่องหมาย | หรือเลือกคำสั่งด้านล่างเพื่อดูข้อมูลเพิ่มเติม"))
        (Some detectedLang) in
    let* searchMessage :=
      searchMessageFor searchResults (str "ข้อมูลเพิ่มเติมเกี่ยวกับสถานที่:")
                       (concat searchResults) detectedLang in
    ret ([orSorry placeCarousel noPlaces] ++ searchMessage
         ++ [orSorry hotelCarousel noHotels]
         ++ [withQuickReply (ttext followUpQuestions) detectedLang]).

Definition infoPrefix : list N := str "ข้อมูล ".

Definition quoted (s : list N) : list N := [34] ++ s ++ [34].

(** Lines 755-794. *)
Definition placeInformation (userMessage detectedLang : list N) : M (list Message) :=
  let placeName := trim (removeFirst [infoPrefix] userMessage) in
  let* locationData := getLocationFromGooglePlaces placeName tourist_attraction in
  match locationData with
  | Some locationData =>
    let* details := getPlaceDetails (placeId locationData) in
    let flexMessage := createPlaceFlexMessage (placeDataOf locationData details) in
    let* searchResults := searchPlaceWithCustomSearch placeName placeContext in
    let* searchMessage :=
      searchMessageFor searchResults (str "ข้อมูลเพิ่มเติมเกี่ยวกับ " ++ placeName ++ str ":")
                       searchResults detectedLang in
    let* note := sourceNote in
    let* followUp := translateText (JStr (note ++ moreInfo)) (Some detectedLang) in
    ret ([flexMessage] ++ searchMessage ++ [withQuickReply (ttext followUp) detectedLang])
  | None =>
    let* errorMsg := translateText (JStr (str "ไม่พบข้อมูลของ " ++ quoted placeName))
                                   (Some detectedLang) in
    ret [withQuickReply (ttext errorMsg) detectedLang]
  end.

Definition hotelPrefix : list N := str "แนะนำโรงแรม".
Definition lodgingRequest : list N := str "ขอที่พัก".

Definition isRecommendHotels (userMessage : list N) : bool :=
  startsWith hotelPrefix userMessage || includes lodgingRequest userMessage.

Definition hotelsDestination (userMessage : list N) : list N :=
  orElse (trim (removeFirst [hotelPrefix; lodgingRequest] userMessage)) region.

(** Lines 797-841. *)
Definition recommendHotels (userMessage detectedLang : list N) : M (list Message) :=
  let placeName := hotelsDestination userMessage in
  if negb (isNorthern placeName) then
    let* errorMsg := translateText (JStr regionGuidance) (Some detectedLang) in
    ret [withQuickReply (ttext errorMsg) detectedLang]
  else
    let* hotels := getHotelsNearPlace placeName in
    let* carousel := createHotelRecommendationCarousel hotels in
    let* searchResults := mapM (fun hotel => searchPlaceWithCustomSearch (hname hotel) hotelContext)
                               hotels in
    let* searchMessage :=
      searchMessageFor searchResults (str "ข้อมูลเพิ่มเติมเกี่ยวกับโรงแรม:")
                       (concat searchResults) detectedLang in
    let* note := sourceNote in
    let* followUp := translateText (JStr (note ++ moreInfo)) (Some detectedLang) in
    ret ([orSorry carousel noHotels] ++ searchMessage
         ++ [withQuickReply (ttext followUp) detectedLang]).

Definition weatherPrefix : list N := str "สภาพอากาศ".
Definition weatherNow : list N := str "สภาพอากาศปัจจุบัน".

Definition isWeather (userMessage : list N) : bool :=
  startsWith (weatherPrefix ++ [32]) userMessage || startsWith weatherNow userMessage.

(** Lines 843-864.  [/สภาพอากาศ(ปัจจุบัน)?/] takes the longer alternative
    when it is there. *)
Definition weather (userMessage detectedLang : list N) : M (list Message) :=
  let placeName := orElse (trim (removeFirst [weatherNow; weatherPrefix] userMessage))
                          (str "กรุงเทพมหานคร") in
  let* locationData := getLocationFromGooglePlaces placeName tourist_attraction in
  match locationData with
  | Some locationData =>
    let flexMessage := createPlaceFlexMessage (placeDataOf locationData None) in
    let* followUp := translateText (JStr moreInfo) (Some detectedLang) in
    ret [flexMessage; withQuickReply (ttext followUp) detectedLang]
  | None =>
    let* errorMsg := translateText (JStr (str "ไม่พบข้อมูลสภาพอากาศของ " ++ quoted placeName))
                                   (Some detectedLang) in
    ret [withQuickReply (ttext errorMsg) detectedLang]
  end.

Definition mapPrefix : list N := str "แผนที่".

(** Lines 866-894. *)
Definition mapOfPlace (userMessage detectedLang : list N) : M (list Message) :=
  let placeName := trim (removeFirst [mapPrefix] userMessage) in
  let* locationData := getLocationFromGooglePlaces placeName tourist_attraction in
  let notFound :=
    let* errorMsg :=
      translateText (JStr (str "ไม่พบข้อมูลแผนที่ของ " ++ quoted placeName
                           ++ str " กรุณาตรวจสอบชื่อสถานที่"))
                    (Some detectedLang) in
    ret [withQuickReply (ttext errorMsg) detectedLang] in
  match locationData with
  | Some locationData =>
    match orNA (latitude locationData), orNA (longitude locationData) with
    | Some la, Some lo =>
      let locationMessage := plain (Location placeName (address locationData) la lo) in
      let* followUp := translateText (JStr moreInfo) (Some detectedLang) in
      ret [locationMessage; withQuickReply (ttext followUp) detectedLang]
    | _, _ => notFound
    end
  | None => notFound
  end.

Definition contactRequest : list N := str "ติดต่อหน่วยงานที่เกี่ยวข้อง".

Definition wide (y h : N) : Area := {| ax := 0; ay := y; awidth := 1040; aheight := h |}.

(** Lines 896-937. *)
Definition contact (detectedLang : list N) : M (list Message) :=
  let imageMap1 :=
    plain (Imagemap (str "https://tripster-plans.netlify.app/images/contact_imagemap1.png?w=auto")
                    (str "ติดต่อหน่วยงานที่เกี่ยวข้อง (กลุ่ม 1)") 1040 1040
                    [ (str "tel:1669", wide 300 350);
                      (str "tel:191", wide 540 340);
                      (str "tel:1155", wide 778 346) ]) in
  let imageMap2 :=
    plain (Imagemap (str "https://tripster-plans.netlify.app/images/contact_imagemap2.png?w=auto")
                    (str "ติดต่อหน่วยงานที่เกี่ยวข้อง (กลุ่ม 2)") 1040 1040
                    [ (str "tel:1196", wide 300 347);
                      (str "tel:1860", wide 540 347);
                      (str "tel:+6622831500", wide 778 346) ]) in
  let* followUp := translateText (JStr moreInfo) (Some detectedLang) in
  ret [imageMap1; imageMap2; withQuickReply (ttext followUp) detectedLang].

(** Lines 939-1002. *)
Definition freeText (userId : list N) (userMessage : UserMessage) (detectedLang : list N)
  : M (list Message) :=
  let* aiResponse :=
    getAIResponse userId
                  (match userMessage with
                   | UText s => s
                   | UObject _ => str "ผู้ใช้ส่งสติกเกอร์"
                   end) [] in
  if matchNumbered aiResponse then
    let places := extractPlaces aiResponse in
    let* resolved := resolvePlaces places in
    let '(validPlaces, searchResults) := resolved in
    let* carousel := createRecommendationCarousel validPlaces in
    let* searchMessage :=
      searchMessageFor searchResults (str "ข้อมูลเพิ่มเติมเกี่ยวกับสถานที่:")
                       (concat searchResults) detectedLang in
    let* note := sourceNote in
    let* followUp := translateText (JStr (note ++ moreInfo)) (Some detectedLang) in
    ret ([orSorry carousel noPlaces] ++ searchMessage
         ++ [withQuickReply (ttext followUp) detectedLang])
  else if includes (str "แสดงรูปภาพ") aiResponse then
    let imageMessage :=
      plain (Image (str "https://example.com/travel_image.jpg")
                   (str "https://example.com/travel_image.jpg")) in
    let* followUp := translateText (JStr moreInfo) (Some detectedLang) in
    ret [imageMessage; withQuickReply (ttext followUp) detectedLang]
  else
    let* translatedResponse := translateText (JStr aiResponse) (Some detectedLang) in
    ret [withQuickReply (ttext translatedResponse) detectedLang].

Definition greetingText : list N :=
  str "สวัสดีครับผม Tripster ดีใจที่คุณทักทายมา ลองเลือกคำสั่งด้านล่างเพื่อเริ่มต้นเลยครับ!".

(** Lines 678-687. *)
Definition stickerGreeting (detectedLang : list N) : M (list Message) :=
  let* greeting := translateText (JStr greetingText) (Some detectedLang) in
  ret [withQuickReply (orElse (ttext greeting) greetingText) detectedLang].

Definition getAIResponseWithMedia (userId : list N) (userMessage : UserMessage)
    (replyToken : list N) : M (list Message) :=
  let* loadingStarted := startLoadingAnimation userId (Some 5%Q) in
  let* userDoc := getDoc userId in
  let previousMessages := default [] (messages <$> userDoc) in
  let* detectedLang :=
    match userMessage with
    | UText s => let* detected := translateText (JStr s) None in ret (lang detected)
    | UObject _ => ret (str "th")
    end in
  match userMessage with
  | UObject type =>
    if decide (type = str "sticker") then stickerGreeting detectedLang
    else freeText userId userMessage detectedLang
  | UText s =>
    if isRecommendPlaces s then recommendPlaces userId s detectedLang
    else if startsWith infoPrefix s then placeInformation s detectedLang
    else if isRecommendHotels s then recommendHotels s detectedLang
    else if isWeather s then weather s detectedLang
    else if startsWith mapPrefix s then mapOfPlace s detectedLang
    else if decide (s = contactRequest) then contact detectedLang
    else freeText userId userMessage detectedLang
  end.

(** *** Lines 1081-1106: a text message on the [/webhook] route *)

Definition welcomeText : list N :=
  str "ยินดีต้อนรับสู่ Tripster! ลองเลือกคำสั่งด้านล่างเพื่อเริ่มต้นเลยครับ!".

(** Lines 1091-1102. *)
Definition welcomeFirstMessage (isFirstMessage : bool) (userMessage : list N)
    (messages : list Message) : M (list Message) :=
  if isFirstMessage && bool_decide (0 < length messages)%nat then
    match quickReply <$> last messages with
    | Some None =>
      let* detected := translateText (JStr userMessage) None in
      let detectedLang := lang detected in
      let* welcomeMessage := translateText (JStr welcomeText) (Some detectedLang) in
      ret (messages ++ [withQuickReply (ttext welcomeMessage) detectedLang])
    | _ => ret messages
    end
  else ret messages.

Definition processingError : list N := str "เกิดข้อผิดพลาดในการประมวลผล กรุณาลองใหม่".

(** Lines 1080-1106 with the handler of lines 1156-1168. *)
Definition handleTextMessage (replyToken userId userMessage : list N) : M unit :=
  tryCatch
    (let* userDoc := getDoc userId in
     let isFirstMessage := match userDoc with None => true | Some _ => false end in
     let* messages := getAIResponseWithMedia userId (UText userMessage) replyToken in
     let* messages := welcomeFirstMessage isFirstMessage userMessage messages in
     match messages with
     | [] => ret ()
     | _ => sendToLine replyToken messages
     end)
    (let* errorMsg := translateText (JStr processingError) (Some (str "th")) in
     tryCatch (sendToLine replyToken [withQuickReply (ttext errorMsg) (str "th")]) (ret ())).

End Server.

(** ** The other routes *)

(** [s.split(sep)[0]] for a separator of several units: the text in front
    of its first occurrence. *)
Fixpoint beforeFirst (sep s : list N) : list N :=
  if startsWith sep s then []
  else match s with
       | [] => []
       | c :: r => c :: beforeFirst sep r
       end.

(** The body of a [/submit-travel-plan] request as the JSON body parser
    of line 21 hands it over: each field is plain data, or absent
    ([None]).  The user id is a string when it is there: what the
    Firestore and LINE clients do with another value is not decided by
    this file. *)
Record PlanRequest := {
  planUserId : option (list N);
  startLocation : option Json;
  destination : option Json;
  budget : option Json;
  preference : option Json;
  travelWith : option Json;
  transport : option Json;
  travelDateStart : option Json;
  travelDateEnd : option Json;
}.

Section Routes.

Context (env : Env).

(** The answer of the push endpoint at an instant; the push request is
    not among the calls of the log. *)
Context (linePush : nat → bool).

(** Lines 1151-1155 with the handler of lines 1156-1168. *)
Definition handleStickerMessage (replyToken userId : list N) : M unit :=
  tryCatch
    (let* messages := getAIResponseWithMedia env userId (UObject (str "sticker")) replyToken in
     sendToLine env replyToken messages)
    (let* errorMsg := translateText env (JStr processingError) (Some (str "th")) in
     tryCatch (sendToLine env replyToken [withQuickReply (ttext errorMsg) (str "th")]) (ret ())).

(** Lines 443-466. *)
Definition pushToLine (userId : list N) (messages : list Message) : M unit :=
  if forallb validMessage messages
  then let* n := instant in
       if linePush n then ret () else throw
  else throw.

(** Line 1008: a field is missing when it is absent or falsy. *)
Definition missingField (body : PlanRequest) : bool :=
  match planUserId body with Some (_ :: _) => false | _ => true end
  || existsb (λ field, negb (default false (truthy <$> field)))
             [startLocation body; destination body; budget body;
              preference body; travelWith body; transport body;
              travelDateStart body; travelDateEnd body].

(** A field inside a template literal: its conversion to a string, which
    may raise ([None]). *)
Definition interpolated (field : option Json) : option (list N) :=
  match field with
  | Some d => jsonToString env d
  | None => Some (str "undefined")
  end.

Definition promptLine (s : list N) : list N := [10] ++ str "      " ++ s.

(** Lines 1014-1028; [None] when the conversion of a field raises. *)
Definition aiPrompt (body : PlanRequest) : option (list N) :=
  origin ← interpolated (startLocation body);
  goal ← interpolated (destination body);
  money ← interpolated (budget body);
  liking ← interpolated (preference body);
  company ← interpolated (travelWith body);
  vehicle ← interpolated (transport body);
  leaving ← interpolated (travelDateStart body);
  returning ← interpolated (travelDateEnd body);
  Some (promptLine (str "ช่วยวางแผนการท่องเที่ยวในประเทศไทยโดยอิงจากข้อมูลต่อไปนี้:")
        ++ promptLine (str "- จุดเริ่มต้น: " ++ origin)
        ++ promptLine (str "- ปลายทาง: " ++ goal)
        ++ promptLine (str "- งบประมาณ: " ++ money ++ str " บาท")
        ++ promptLine (str "- ความชอบ: " ++ liking)
        ++ promptLine (str "- เดินทางกับ: " ++ company)
        ++ promptLine (str "- วิธีการเดินทาง: " ++ vehicle)
        ++ promptLine (str "- วันเดินทางไป: " ++ leaving)
        ++ promptLine (str "- วันเดินทางกลับ: " ++ returning)
        ++ promptLine (str "แนะนำสถานที่ท่องเที่ยว 2-3 แห่งที่เหมาะสมกับความชอบและงบประมาณ พร้อมชื่อสถานที่, ที่อยู่, และคำอธิบายสั้น ๆ")
        ++ promptLine (str "แนะนำโรงแรม 1-2 แห่งใกล้สถานที่ท่องเที่ยวหลัก โดยพิจารณาความนิยม (เรตติ้ง) และราคาที่เหมาะสมกับ "
                       ++ money ++ str " บาท")
        ++ promptLine (str "หากเดินทางจาก " ++ origin ++ str " ไป " ++ goal
                       ++ str " ด้วย " ++ vehicle
                       ++ str " ควรใช้เส้นทางไหน หรือมีคำแนะนำอะไรเพิ่มเติม")
        ++ promptLine (str "หากไม่มีข้อมูลตรงตามความชอบ ให้แนะนำสถานที่ยอดนิยมใกล้เคียงใน " ++ goal)
        ++ [10] ++ str "    ").

Definition attractionWord : list N := str "สถานที่ท่องเที่ยว".
Definition sightWord : list N := str "ที่เที่ยว".

(** Lines 1035-1038 (the hotel names of lines 1039-1041 are computed and
    never read). *)
Definition planPlaceNames (aiResponse : list N) : list (list N) :=
  let locations := filter (λ line, trim line ≠ []) (split 10 aiResponse) in
  map (λ line, trim (beforeFirst (str " - ")
                       (removeFirst [attractionWord ++ str ": "; sightWord ++ str ": "] line)))
      (filter (λ line, includes attractionWord line || includes sightWord line = true)
              locations).

(** Line 1049; [None] when the conversion of a field raises. *)
Definition planHeading (body : PlanRequest) (aiResponse : list N) : option (list N) :=
  origin ← interpolated (startLocation body);
  goal ← interpolated (destination body);
  Some (str "🗺️ แผนการท่องเที่ยวจาก " ++ origin ++ str " ถึง " ++ goal
        ++ str ":" ++ [10] ++ aiResponse).

(** Lines 1013-1056: the messages handed to [pushToLine].  A destination
    that is not a string has no [trim] to call at line 158, which raises
    before any request of the Hotel Finder. *)
Definition planMessages (body : PlanRequest) : M (list Message) :=
  match aiPrompt body with
  | None => throw
  | Some prompt =>
    let* aiResponse := getAIResponse env (default [] (planUserId body)) prompt [] in
    let placeNames := planPlaceNames aiResponse in
    let* placeCarousel := createRecommendationCarousel env (take 3 placeNames) in
    let* hotels :=
      match destination body with
      | Some (JsonStr placeName) => getHotelsNearPlace env placeName
      | _ => throw
      end in
    let* hotelCarousel := createHotelRecommendationCarousel env (take 2 hotels) in
    match planHeading body aiResponse with
    | None => throw
    | Some heading =>
      ret ([plain (Text heading)]
           ++ (if isFlex placeCarousel then [placeCarousel] else [])
           ++ (if isFlex hotelCarousel then [hotelCarousel] else [])
           ++ [withQuickReply moreInfo (str "th")])
    end
  end.

(** Lines 1005-1066: the status the route answers with. *)
Definition submitTravelPlan (body : PlanRequest) : M N :=
  if missingField body then ret 400
  else
    tryCatch
      (let* messages := planMessages body in
       let* _ := pushToLine (default [] (planUserId body)) messages in
       ret 200)
      (ret 500).

End Routes.

(** * Vocabulary of the statements *)

(** Rating descending, then rating count descending, a missing value
    counting as 0: [a] is ranked at least as high as [b]. *)
Definition ranksAtLeast (a b : Candidate) : Prop :=
  (orZero (rating b) < orZero (rating a))%Q
  ∨ ((orZero (rating a) == orZero (rating b))%Q
     ∧ (orZero (user_ratings_total b) <= orZero (user_ratings_total a))%Q).

(** The same order on the records of the Hotel Finder, whose rating is
    [None] (shown as N/A) when it is missing or 0: [a] is listed at least
    as high as [b]. *)
Definition listedAtLeast (a b : HotelRecord) : Prop :=
  (orZero (hrating b) < orZero (hrating a))%Q
  ∨ ((orZero (hrating a) == orZero (hrating b))%Q
     ∧ (huserRatingsTotal b <= huserRatingsTotal a)%Q).

(** With a comparator [cmp], [a] may stand in front of [b]. *)
Definition before {A} (cmp : A → A → Q) (a b : A) : Prop := (cmp a b <= 0)%Q.

(** What a resolution of [placeName] started at instant [n] answers. *)
Definition resolution (env : Env) (n : nat) (placeName : list N) : option PlaceRecord :=
  match textSearch env n (searchQueryOf env placeName) tourist_attraction with
  | Some candidates => chooseCandidate candidates
  | None => None
  end.

(** The calls that look places, hotels or pages up, or ask the model. *)
Definition isLookup (c : Call) : bool :=
  match c with
  | Token | Complete _ | TextSearch _ _ | PlaceDetails _ | NearbySearch _ _ _ _
  | CustomSearch _ => true
  | _ => false
  end.

(** [m] returns a value from every world. *)
Definition Returns {A} (m : M A) : Prop := ∀ w, ∃ a w', m w = (Ok a, w').

(** Every value [m] returns satisfies [P]. *)
Definition Yields {A} (m : M A) (P : A → Prop) : Prop :=
  ∀ w a w', m w = (Ok a, w') → P a.

(** [m] returns, leaves the store as it is and issues no lookup; the
    value satisfies [P]. *)
Definition Quiet {A} (m : M A) (P : A → Prop) : Prop :=
  ∀ w, ∃ a new,
    m w = (Ok a, {| store := store w; calls := calls w ++ new |})
    ∧ Forall (λ c, isLookup c = false) new ∧ P a.

(** The reply list ends with a text message carrying the menu in [lang]. *)
Definition EndsWithMenu (lang : list N) (messages : list Message) : Prop :=
  ∃ init text, messages = init ++ [withQuickReply text lang].

(** The language the dispatcher works in for [userMessage]: the one the
    detection answers for a text, Thai when it fails or for other events. *)
Definition DetectedFor (env : Env) (userMessage : UserMessage) (lang : list N) : Prop :=
  match userMessage with
  | UText s => lang = str "th" ∨ ∃ n, detect env n s = Some lang
  | UObject _ => lang = str "th"
  end.

(** What [translateText] may answer for the text [s] and target [lang]:
    [s] itself, or a translation of it by the service. *)
Definition RenderingOf (env : Env) (s lang t : list N) : Prop :=
  t = s ∨ ∃ n, translate env n s lang = Some t.

(** [m] leaves the store as it is. *)
Definition KeepsStore {A} (m : M A) : Prop := ∀ w, store (m w).2 = store w.

(** [m] leaves the documents of all users but [userId] as they are. *)
Definition TouchesOnly {A} (userId : list N) (m : M A) : Prop :=
  ∀ w u, u ≠ userId → store (m w).2 !! u = store w !! u.

(** No document holds a turn twice. *)
Definition Deduplicated (w : World) : Prop :=
  ∀ u d, store w !! u = Some d → NoDup (messages d).

(** The turns stored for a user, none when there is no document. *)
Definition storedTurns (w : World) (userId : list N) : list Turn :=
  default [] (messages <$> store w !! userId).

(** What a quick-reply action does when it is chosen, whatever its label. *)
Definition effectOf (a : Action) : bool * list N :=
  match a with
  | MessageAction _ text => (true, text)
  | UriAction _ uri => (false, uri)
  end.

(** The two texts [getAIResponse] answers with when it cannot ask the
    model (lines 92 and 134). *)
Definition outage : list N := str "ระบบขัดข้อง กรุณาลองใหม่ภายหลัง".
Definition trouble : list N := str "ระบบมีปัญหา กรุณาลองใหม่".

(** * Sample data

    Concrete inputs and a concrete environment on which the statements
    below are exercised. *)

Module Sample.

Definition sampleResponse : list N :=
  str "1. Doi Suthep: temple" ++ [10] ++ str "2. **Night Bazaar**" ++ [10] ++ str "some prose".

Definition lowerAscii (s : list N) : list N :=
  map (λ c, if (65 <=? c) && (c <=? 90) then c + 32 else c) s.

Definition place (id nm : string) (g : option Geometry) (r n : option Q) : Candidate :=
  {| place_id := str id; cname := str nm; geometry := g;
     formatted_address := Some (str "Chiang Mai"); vicinity := Some (str "Chiang Mai");
     photos := [Some (str id)]; rating := r; user_ratings_total := n |}.

Definition at_ (la lo : Q) : option Geometry :=
  Some {| location := Some {| lat := Some la; lng := Some lo |} |}.

Definition doiSuthep : Candidate :=
  place "p1" "Wat Phra That Doi Suthep" (at_ (188049 # 10000) (989216 # 10000))
        (Some (47 # 10)) (Some (30000 # 1)).
Definition viewpoint : Candidate :=
  place "p2" "Doi Suthep Viewpoint" (at_ (188100 # 10000) (989200 # 10000))
        (Some (47 # 10)) (Some (1200 # 1)).
Definition unplaced : Candidate :=
  place "p3" "Doi Suthep Tours" None (Some (5 # 1)) (Some (10 # 1)).
Definition unrated : Candidate :=
  place "p4" "Doi Suthep Kiosk" (at_ (188000 # 10000) (989000 # 10000)) None None.

Definition hotels : list Candidate :=
  [ place "h1" "Hotel A" (at_ (187900 # 10000) (989800 # 10000)) (Some (40 # 10)) (Some (50 # 1));
    place "h2" "Hotel B" None (Some (50 # 10)) (Some (10 # 1));
    place "h3" "Hotel C" (at_ (187910 # 10000) (989810 # 10000)) (Some (45 # 10)) (Some (20 # 1));
    place "h4" "Hotel D" (at_ (187920 # 10000) (989820 # 10000)) (Some (45 # 10)) (Some (90 # 1));
    place "h5" "Hotel E" (at_ (187930 # 10000) (989830 # 10000)) None None ].

(** An environment in which every service answers: the text search knows
    Doi Suthep only, the model echoes the last turn it is given. *)
Definition env : Env :=
  {| toLowerCase := lowerAscii;
     numberToString := λ _, str "4.7";
     encodeURIComponent := λ s, s;
     localeDate := λ _, str "1 มกราคม 2568";
     clock := N.of_nat;
     placesKey := str "key";
     loading := λ _, true;
     storeUp := λ _, true;
     accessToken := λ _, Some (str "token");
     detect := λ _ _, Some (str "th");
     translate := λ _ s _, Some s;
     complete := λ _ contents, Some (text <$> last contents);
     textSearch := λ _ q _,
       if includes (str "Doi Suthep") q
       then Some (Some [unplaced; unrated; viewpoint; doiSuthep])
       else Some None;
     placeDetails := λ _ _, Some None;
     nearbySearch := λ _ _ _, Some hotels;
     customSearch := λ _ _, Some None;
     lineReply := λ _, true |}.

Definition start : World := {| store := ∅; calls := [] |}.

Definition someone : list N := str "U1".

Definition questions : list (list N) :=
  [str "one"; str "two"; str "three"; str "four"; str "five"; str "six"].

End Sample.

(** An environment in which every service fails. *)
Module Offline.

Definition env : Env :=
  {| toLowerCase := Sample.lowerAscii;
     numberToString := λ _, str "0";
     encodeURIComponent := λ s, s;
     localeDate := λ _, str "1 มกราคม 2568";
     clock := N.of_nat;
     placesKey := str "key";
     loading := λ _, false;
     storeUp := λ _, false;
     accessToken := λ _, None;
     detect := λ _ _, None;
     translate := λ _ _ _, None;
     complete := λ _ _, None;
     textSearch := λ _ _ _, None;
     placeDetails := λ _ _, None;
     nearbySearch := λ _ _ _, None;
     customSearch := λ _ _, None;
     lineReply := λ _, false |}.

End Offline.

(** An environment whose web search has two pages to offer. *)
Module Pages.

Definition review : Item :=
  {| title := str "Hotel A Chiang Mai"; link := str "https://example.com/a";
     snippet := str "รีวิว โรงแรม ใจกลางเมือง" |}.

Definition stray : Item :=
  {| title := str "Cheap flights"; link := str "https://example.com/b";
     snippet := str "Book now" |}.

Definition env : Env :=
  {| toLowerCase := Sample.lowerAscii;
     numberToString := λ _, str "4.7";
     encodeURIComponent := λ s, s;
     localeDate := λ _, str "1 มกราคม 2568";
     clock := N.of_nat;
     placesKey := str "key";
     loading := λ _, true;
     storeUp := λ _, true;
     accessToken := λ _, Some (str "token");
     detect := λ _ _, Some (str "th");
     translate := λ _ s _, Some s;
     complete := λ _ contents, Some (text <$> last contents);
     textSearch := λ _ _ _, Some None;
     placeDetails := λ _ _, Some None;
     nearbySearch := λ _ _ _, Some Sample.hotels;
     customSearch := λ _ _, Some (Some [stray; review]);
     lineReply := λ _, true |}.

End Pages.

(** An environment whose text search answers with entries whose geometry
    is incomplete: for a market one entry, the location of which holds no
    coordinates; for anything else an entry whose geometry holds no
    location, rated above the temple of the sample data. *)
Module Sparse.

Definition unlocated : Candidate :=
  Sample.place "p9" "Doi Suthep Market"
               (Some {| location := Some {| lat := None; lng := None |} |})
               (Some (49 # 10)) (Some (7 # 1)).

Definition bare : Candidate :=
  Sample.place "p8" "Doi Suthep Gate" (Some {| location := None |})
               (Some (5 # 1)) (Some (3 # 1)).

Definition env : Env :=
  {| toLowerCase := Sample.lowerAscii;
     numberToString := λ _, str "4.9";
     encodeURIComponent := λ s, s;
     localeDate := λ _, str "1 มกราคม 2568";
     clock := N.of_nat;
     placesKey := str "key";
     loading := λ _, true;
     storeUp := λ _, true;
     accessToken := λ _, Some (str "token");
     detect := λ _ _, Some (str "th");
     translate := λ _ s _, Some s;
     complete := λ _ contents, Some (text <$> last contents);
     textSearch := λ _ q _,
       if includes (str "Market") q then Some (Some [unlocated])
       else Some (Some [Sample.doiSuthep; bare]);
     placeDetails := λ _ _, Some None;
     nearbySearch := λ _ _ _, Some Sample.hotels;
     customSearch := λ _ _, Some None;
     lineReply := λ _, true |}.

End Sparse.

(** A travel-plan request with every field filled in. *)
Module Trip.

Definition request : PlanRequest :=
  {| planUserId := Some Sample.someone;
     startLocation := Some (JsonStr (str "Bangkok"));
     destination := Some (JsonStr (str "Chiang Mai"));
     budget := Some (JsonNum 5000);
     preference := Some (JsonStr (str "nature"));
     travelWith := Some (JsonStr (str "family"));
     transport := Some (JsonStr (str "car"));
     travelDateStart := Some (JsonStr (str "2025-01-01"));
     travelDateEnd := Some (JsonStr (str "2025-01-03")) |}.

End Trip.

(** * Properties *)

(** ** Strings and the numbered-list patterns *)

Ltac reassoc := repeat (simpl; rewrite <- ?app_assoc); try done.

Section RegexFacts.

Implicit Types (s m r : list N) (p : N → bool).

Lemma takeWhile_dropWhile p s : takeWhile p s ++ dropWhile p s = s.
Proof. induction s as [|c s IH]; simpl; [done|]. destruct (p c); simpl; [by rewrite IH|done]. Qed.

Lemma takeWhile_all p s : Forall (λ c, p c = true) (takeWhile p s).
Proof.
  induction s as [|c s IH]; simpl; [constructor|].
  destruct (p c) eqn:E; [by constructor|constructor].
Qed.

Lemma dropWhile_app p s c r :
  Forall (λ c, p c = true) s → p c = false → dropWhile p (s ++ c :: r) = c :: r.
Proof.
  induction 1 as [|x s Hx _ IH]; intros Hc; simpl.
  - by rewrite Hc.
  - rewrite Hx. by apply IH.
Qed.

Lemma dropWhile_head p s c r : dropWhile p s = c :: r → p c = false.
Proof.
  induction s as [|x s IH]; simpl; [done|].
  destruct (p x) eqn:E; [done|]. by intros [= <- _].
Qed.

Lemma star_cls_all p m : Matches (Star (Cls p)) m → Forall (λ c, p c = true) m.
Proof.
  intros H. remember (Star (Cls p)) as q eqn:Hq.
  induction H as [| | |q s1 s2 H1 _ H2 IH]; try discriminate; [constructor|].
  injection Hq as ->. inversion H1; subst. constructor; [done|]. by apply IH.
Qed.

Lemma all_star_cls p m : Forall (λ c, p c = true) m → Matches (Star (Cls p)) m.
Proof.
  induction 1 as [|c m Hc _ IH]; [constructor|].
  change (c :: m) with ([c] ++ m). constructor; [by constructor|done].
Qed.

Lemma plus_cls_inv p m :
  Matches (Plus (Cls p)) m → ∃ c cs, m = c :: cs ∧ p c = true ∧ Forall (λ c, p c = true) cs.
Proof.
  inversion 1 as [|q1 q2 s1 s2 H1 H2| |]; subst.
  inversion H1; subst. eexists _, _. split; [done|]. split; [done|]. by apply star_cls_all.
Qed.

Lemma plus_cls_intro p c cs :
  p c = true → Forall (λ c, p c = true) cs → Matches (Plus (Cls p)) (c :: cs).
Proof.
  intros Hc Hcs. change (c :: cs) with ([c] ++ cs).
  constructor; [by constructor|by apply all_star_cls].
Qed.

Lemma fullStop_inv m : Matches (Cls isFullStop) m → m = [46].
Proof. inversion 1; subst. f_equal. by apply N.eqb_eq. Qed.

(** The shape of the strings [/\d+\.\s*.+/] matches. *)
Lemma numbered_shape m :
  Matches numbered m ↔
  ∃ d ds ws c cs, m = (d :: ds) ++ [46] ++ ws ++ c :: cs
    ∧ isDigit d = true ∧ Forall (λ x, isDigit x = true) ds
    ∧ Forall (λ x, isWhite x = true) ws
    ∧ isDot c = true ∧ Forall (λ x, isDot x = true) cs.
Proof.
  split.
  - inversion 1 as [|q1 q2 s1 s2 H1 H2| |]; subst.
    apply plus_cls_inv in H1 as (d & ds & -> & Hd & Hds).
    inversion H2 as [|q1 q2 s3 s4 H3 H4| |]; subst.
    apply fullStop_inv in H3 as ->.
    inversion H4 as [|q1 q2 s5 s6 H5 H6| |]; subst.
    apply star_cls_all in H5. apply plus_cls_inv in H6 as (c & cs & -> & Hc & Hcs).
    by eexists d, ds, s5, c, cs.
  - intros (d & ds & ws & c & cs & -> & Hd & Hds & Hws & Hc & Hcs).
    constructor; [by apply plus_cls_intro|].
    constructor; [by constructor|].
    constructor; [by apply all_star_cls|by apply plus_cls_intro].
Qed.

Lemma afterNumeral_intro d ds r :
  isDigit d = true → Forall (λ x, isDigit x = true) ds →
  afterNumeral ((d :: ds) ++ 46 :: r) = Some r.
Proof.
  intros Hd Hds.
  assert (dropWhile isDigit ((d :: ds) ++ 46 :: r) = 46 :: r) as Hdrop
    by (apply dropWhile_app; [by constructor|done]).
  unfold afterNumeral. rewrite Hdrop. simpl. by rewrite Hd.
Qed.

Lemma afterNumeral_inv s r :
  afterNumeral s = Some r →
  ∃ d ds, s = (d :: ds) ++ 46 :: r ∧ isDigit d = true ∧ Forall (λ x, isDigit x = true) ds.
Proof.
  unfold afterNumeral. destruct s as [|d s']; [done|].
  destruct (isDigit d) eqn:Hd; [|done].
  destruct (dropWhile isDigit (d :: s')) as [|x r'] eqn:Hdrop; [done|].
  destruct (isFullStop x) eqn:Hx; [|done]. intros [= ->].
  apply N.eqb_eq in Hx as ->.
  pose proof (takeWhile_dropWhile isDigit (d :: s')) as Hsplit.
  pose proof (takeWhile_all isDigit (d :: s')) as Hall.
  rewrite Hdrop in Hsplit. simpl in Hsplit, Hall. rewrite Hd in Hsplit, Hall.
  exists d, (takeWhile isDigit s'). split; [by rewrite <- Hsplit|].
  split; [done|]. by inversion Hall.
Qed.

Lemma spaceThenAny_intro ws c cs :
  Forall (λ x, isWhite x = true) ws → isDot c = true → spaceThenAny (ws ++ c :: cs) = true.
Proof.
  induction 1 as [|x ws Hx _ IH]; intros Hc; simpl; [by rewrite Hc|].
  destruct (isDot x); [done|]. rewrite Hx. by apply IH.
Qed.

Lemma spaceThenAny_inv s :
  spaceThenAny s = true →
  ∃ ws c cs, s = ws ++ c :: cs ∧ Forall (λ x, isWhite x = true) ws ∧ isDot c = true.
Proof.
  induction s as [|x s IH]; simpl; [done|].
  destruct (isDot x) eqn:Hx.
  - intros _. by exists [], x, s.
  - destruct (isWhite x) eqn:Hw; [|done]. intros H.
    destruct (IH H) as (ws & c & cs & -> & Hws & Hc).
    exists (x :: ws), c, cs. split; [done|]. split; [by constructor|done].
Qed.

Lemma numberedAt_correct s : numberedAt s = true ↔ FoundAtStart numbered s.
Proof.
  unfold numberedAt, FoundAtStart. split.
  - destruct (afterNumeral s) as [r|] eqn:Hr; [|done]. intros Hs.
    apply afterNumeral_inv in Hr as (d & ds & -> & Hd & Hds).
    apply spaceThenAny_inv in Hs as (ws & c & cs & -> & Hws & Hc).
    exists ((d :: ds) ++ [46] ++ ws ++ [c]), cs. split.
    + reassoc.
    + apply numbered_shape. by exists d, ds, ws, c, [].
  - intros (m & post & -> & Hm).
    apply numbered_shape in Hm as (d & ds & ws & c & cs & -> & Hd & Hds & Hws & Hc & _).
    replace (((d :: ds) ++ [46] ++ ws ++ c :: cs) ++ post)
      with ((d :: ds) ++ 46 :: (ws ++ c :: (cs ++ post))).
    + rewrite afterNumeral_intro by done. by apply spaceThenAny_intro.
    + reassoc.
Qed.

(** [s.match(/\d+\.\s*.+/)] is truthy exactly when a substring matches. *)
Lemma matchNumbered_correct s : matchNumbered s = true ↔ Found numbered s.
Proof.
  unfold Found. induction s as [|x s IH].
  - change (matchNumbered []) with (numberedAt [] || false).
    rewrite orb_false_r. rewrite numberedAt_correct. split.
    + intros (m & post & E & Hm). by exists [], m, post.
    + intros (pre & m & post & E & Hm). symmetry in E.
      apply app_eq_nil in E as [-> E]. apply app_eq_nil in E as [-> ->].
      by exists [], [].
  - change (matchNumbered (x :: s)) with (numberedAt (x :: s) || matchNumbered s).
    rewrite orb_true_iff, IH, numberedAt_correct. split.
    + intros [(m & post & E & Hm)|(pre & m & post & E & Hm)].
      * by exists [], m, post.
      * exists (x :: pre), m, post. by rewrite E.
    + intros (pre & m & post & E & Hm). destruct pre as [|y pre].
      * left. by exists m, post.
      * right. injection E as -> ->. by exists pre, m, post.
Qed.

(** [removeNumeral] strips a leading numeral with its full stop and all
    the white space behind it, and nothing when there is none. *)
Lemma removeNumeral_numbered d ds ws rest :
  isDigit d = true → Forall (λ x, isDigit x = true) ds →
  Forall (λ x, isWhite x = true) ws → dropWhile isWhite rest = rest →
  removeNumeral ((d :: ds) ++ [46] ++ ws ++ rest) = rest.
Proof.
  intros Hd Hds Hws Hrest. unfold removeNumeral.
  change ((d :: ds) ++ [46] ++ ws ++ rest) with ((d :: ds) ++ 46 :: (ws ++ rest)).
  rewrite afterNumeral_intro by done.
  induction Hws as [|x ws Hx _ IH]; simpl; [done|]. by rewrite Hx.
Qed.

Lemma removeNumeral_other s :
  ¬ FoundAtStart (Cat (Plus (Cls isDigit)) (Cls isFullStop)) s → removeNumeral s = s.
Proof.
  intros Hno. unfold removeNumeral. destruct (afterNumeral s) as [r|] eqn:Hr; [|done].
  exfalso. apply Hno. apply afterNumeral_inv in Hr as (d & ds & -> & Hd & Hds).
  exists ((d :: ds) ++ [46]), r. split; [reassoc|].
  constructor; [by apply plus_cls_intro|by constructor].
Qed.

(** What [removeNumeral] removes is a prefix matching [/^\d+\.\s*/]. *)
Lemma removeNumeral_prefix s :
  removeNumeral s = s ∨ ∃ m, Matches numeral m ∧ s = m ++ removeNumeral s.
Proof.
  unfold removeNumeral. destruct (afterNumeral s) as [r|] eqn:Hr; [right|by left].
  apply afterNumeral_inv in Hr as (d & ds & -> & Hd & Hds).
  exists ((d :: ds) ++ [46] ++ takeWhile isWhite r). split.
  - constructor; [by apply plus_cls_intro|].
    constructor; [by constructor|]. apply all_star_cls, takeWhile_all.
  - rewrite <- (takeWhile_dropWhile isWhite r) at 1. reassoc.
Qed.

(** The rule as the specification words it, against its pattern. *)
Lemma specWords_isListLine_correct s :
  SpecWords.isListLine s = true ↔ FoundAtStart numeralSpaced s.
Proof.
  unfold SpecWords.isListLine, FoundAtStart. split.
  - destruct (afterNumeral s) as [[|c r]|] eqn:Hr; [done| |done]. intros Hc.
    apply afterNumeral_inv in Hr as (d & ds & -> & Hd & Hds).
    exists ((d :: ds) ++ [46] ++ [c]), r. split; [reassoc|].
    constructor; [by apply plus_cls_intro|].
    constructor; [by constructor|by apply plus_cls_intro].
  - intros (m & post & -> & Hm).
    inversion Hm as [|q1 q2 s1 s2 H1 H2| |]; subst.
    apply plus_cls_inv in H1 as (d & ds & -> & Hd & Hds).
    inversion H2 as [|q1 q2 s3 s4 H3 H4| |]; subst.
    apply fullStop_inv in H3 as ->.
    apply plus_cls_inv in H4 as (c & cs & -> & Hc & Hcs).
    replace (((d :: ds) ++ [46] ++ c :: cs) ++ post)
      with ((d :: ds) ++ 46 :: (c :: cs ++ post)) by reassoc.
    by rewrite afterNumeral_intro.
Qed.

Lemma split_nonempty sep s : split sep s ≠ [].
Proof. destruct s as [|c s]; simpl; [done|]. destruct (c =? sep); [done|]. by destruct (split sep s). Qed.

Lemma join_cons sep l l' ls : join sep (l :: l' :: ls) = l ++ sep ++ join sep (l' :: ls).
Proof. done. Qed.

Lemma split_join sep s : join [sep] (split sep s) = s.
Proof.
  induction s as [|c s IH]; [done|].
  pose proof (split_nonempty sep s) as Hne.
  change (split sep (c :: s)) with
    (if c =? sep then [] :: split sep s
     else match split sep s with [] => [[c]] | l :: ls => (c :: l) :: ls end).
  destruct (c =? sep) eqn:E.
  - apply N.eqb_eq in E as ->. destruct (split sep s) as [|l ls]; [done|].
    rewrite join_cons, IH. done.
  - destruct (split sep s) as [|l [|l' ls]]; [done|..].
    + simpl in *. by rewrite IH.
    + rewrite join_cons. rewrite join_cons in IH. by rewrite <- IH.
Qed.

Lemma split_lines sep s : Forall (λ l, sep ∉ l) (split sep s).
Proof.
  induction s as [|c s IH]; simpl.
  - constructor; [|constructor]. by intros ?%elem_of_nil.
  - destruct (c =? sep) eqn:E.
    + constructor; [|done]. by intros ?%elem_of_nil.
    + apply N.eqb_neq in E. destruct (split sep s) as [|l ls]; inversion IH; subst.
      * constructor; [|constructor]. intros [->|?%elem_of_nil]%elem_of_cons; done.
      * constructor; [|done]. intros [->|?]%elem_of_cons; done.
Qed.

End RegexFacts.

(** ** Numbered-list extraction *)

(** C5 (as amended).  The extraction splits the response on newlines and
    keeps, in order, the lines whose trimmed text has a substring
    matching [\d+\.\s*.+] (digits, a full stop, then at least one more
    unit on the line); of each kept line it removes a numeral at the very
    start of the line with the white space behind it, removes the bold
    markup, takes the text before the first colon and trims.  On the
    sample of the specification it yields the two place names. *)
Theorem extractPlaces_rule (response : list N) :
  (∃ lines, join [10] lines = response ∧ Forall (λ l, 10 ∉ l) lines
     ∧ extractPlaces response
       = map (λ line, trim (splitHead 58 (removeBold (removeNumeral line))))
             (filter (λ line, isListLine line = true) lines))
  ∧ (∀ line, isListLine line = true ↔ Found numbered (trim line))
  ∧ (∀ d ds ws rest,
       isDigit d = true → Forall (λ x, isDigit x = true) ds →
       Forall (λ x, isWhite x = true) ws → dropWhile isWhite rest = rest →
       removeNumeral ((d :: ds) ++ [46] ++ ws ++ rest) = rest)
  ∧ (∀ line, ¬ FoundAtStart (Cat (Plus (Cls isDigit)) (Cls isFullStop)) line →
       removeNumeral line = line)
  ∧ (∀ line, removeNumeral line = line
             ∨ ∃ m, Matches numeral m ∧ line = m ++ removeNumeral line)
  ∧ extractPlaces Sample.sampleResponse = [str "Doi Suthep"; str "Night Bazaar"].
Proof.
  split; [|split; [|split; [|split; [|split]]]].
  - exists (split 10 response). split; [apply split_join|]. split; [apply split_lines|done].
  - intros line. apply matchNumbered_correct.
  - apply removeNumeral_numbered.
  - apply removeNumeral_other.
  - apply removeNumeral_prefix.
  - vm_compute. reflexivity.
Qed.

(** C5, as stated, fails: a line that does not match [^\d+\.\s+] is kept
    when a numeral with a full stop occurs anywhere in it. *)
Lemma extractPlaces_keeps_unnumbered_line :
  let line := str "Rated 4.5 stars" in
  ¬ FoundAtStart numeralSpaced line
  ∧ SpecWords.extractPlaces line = []
  ∧ extractPlaces line = [line].
Proof.
  split; [|split].
  - intros H. apply specWords_isListLine_correct in H. vm_compute in H. discriminate.
  - vm_compute. reflexivity.
  - vm_compute. reflexivity.
Qed.

(** ** Sorting by rating *)

Section Sorting.

Context {A : Type} (cmp : A → A → Q).

Local Abbreviation before := (before cmp).

Hypothesis before_total : ∀ a b, before a b ∨ before b a.
Hypothesis before_trans : ∀ a b c, before a b → before b c → before a c.

Lemma insertBy_perm x l : insertBy cmp x l ≡ₚ x :: l.
Proof using Type.
  induction l as [|y l IH]; simpl; [done|].
  destruct (Qle_bool (cmp x y) 0); [done|]. rewrite IH. apply Permutation_swap.
Qed.

Lemma sortBy_perm l : sortBy cmp l ≡ₚ l.
Proof using Type.
  induction l as [|x l IH]; simpl; [done|].
  rewrite insertBy_perm. by constructor.
Qed.

Lemma insertBy_sorted x l :
  StronglySorted before l → StronglySorted before (insertBy cmp x l).
Proof using before_total before_trans.
  induction 1 as [|y l Hl IH Hy]; simpl; [repeat constructor|].
  destruct (Qle_bool (cmp x y) 0) eqn:E.
  - apply Qle_bool_iff in E. constructor; [by constructor|].
    constructor; [done|]. eapply Forall_impl; [exact Hy|]. intros z Hz. by eapply before_trans.
  - constructor; [done|]. rewrite insertBy_perm. constructor; [|done].
    destruct (before_total x y) as [Hxy|Hyx]; [|done].
    apply Qle_bool_iff in Hxy. unfold before in Hxy. congruence.
Qed.

Lemma sortBy_sorted l : StronglySorted before (sortBy cmp l).
Proof using before_total before_trans.
  induction l as [|x l IH]; simpl; [constructor|]. by apply insertBy_sorted.
Qed.

End Sorting.

Lemma byRating_before a b : before byRating a b ↔ ranksAtLeast a b.
Proof.
  unfold before, byRating, ranksAtLeast, isZero.
  destruct (Qeq_bool _ 0) eqn:E.
  - apply Qeq_bool_iff in E. split; [intros H; right|intros [H|[_ H]]]; try split; lra.
  - apply Qeq_bool_neq in E. split; [intros H; left|intros [H|[H _]]]; lra.
Qed.

Lemma ranksAtLeast_total a b : ranksAtLeast a b ∨ ranksAtLeast b a.
Proof.
  unfold ranksAtLeast.
  destruct (Q_dec (orZero (rating a)) (orZero (rating b))) as [[H|H]|H]; [right; by left|left; by left|].
  destruct (Qlt_le_dec (orZero (user_ratings_total a)) (orZero (user_ratings_total b))).
  - right. right. split; lra.
  - left. right. split; lra.
Qed.

Lemma ranksAtLeast_trans a b c : ranksAtLeast a b → ranksAtLeast b c → ranksAtLeast a c.
Proof.
  unfold ranksAtLeast. intros [H1|[H1 H1']] [H2|[H2 H2']].
  - left. lra.
  - left. lra.
  - left. lra.
  - right. split; lra.
Qed.

Lemma StronglySorted_weaken {A} (R1 R2 : A → A → Prop) l :
  (∀ a b, R1 a b → R2 a b) → StronglySorted R1 l → StronglySorted R2 l.
Proof.
  intros HR. induction 1 as [|x l _ IH Hx]; constructor; [done|].
  eapply Forall_impl; [exact Hx|]. intros y. apply HR.
Qed.

Lemma rankCandidates_sorted l : StronglySorted ranksAtLeast (rankCandidates l).
Proof.
  unfold rankCandidates.
  eapply (StronglySorted_weaken (before byRating)).
  - intros a b. apply byRating_before.
  - apply sortBy_sorted.
    + intros a b. rewrite !byRating_before. apply ranksAtLeast_total.
    + intros a b c. rewrite !byRating_before. apply ranksAtLeast_trans.
Qed.

Lemma rankCandidates_perm l :
  rankCandidates l ≡ₚ filter (λ c, hasGeometry c = true) l.
Proof. apply sortBy_perm. Qed.

Lemma rankCandidates_geometry l c : c ∈ rankCandidates l → c ∈ l ∧ is_Some (geometry c).
Proof.
  rewrite rankCandidates_perm. rewrite list_elem_of_filter. intros [Hg Hc]. split; [done|].
  unfold hasGeometry in Hg. by destruct (geometry c).
Qed.

Lemma rankCandidates_head l place rest :
  rankCandidates l = place :: rest →
  place ∈ l ∧ is_Some (geometry place)
  ∧ ∀ c, c ∈ l → is_Some (geometry c) → ranksAtLeast place c.
Proof.
  intros E. pose proof (rankCandidates_sorted l) as Hs. rewrite E in Hs.
  assert (place ∈ rankCandidates l) as Hin by (rewrite E; by left).
  apply rankCandidates_geometry in Hin as [Hin Hg]. split; [done|]. split; [done|].
  intros c Hc Hgc.
  assert (c ∈ rankCandidates l) as Hc'.
  { rewrite rankCandidates_perm, list_elem_of_filter. split; [|done].
    unfold hasGeometry. by destruct Hgc as [g ->]. }
  rewrite E in Hc'. apply elem_of_cons in Hc' as [->|Hc'].
  - destruct (ranksAtLeast_total place place); done.
  - inversion Hs as [|? ? _ Hall]; subst. rewrite Forall_forall in Hall. by apply Hall.
Qed.

Lemma rankCandidates_nil l :
  rankCandidates l = [] ↔ Forall (λ c, geometry c = None) l.
Proof.
  split.
  - intros E. apply Forall_forall. intros c Hc.
    destruct (geometry c) as [g|] eqn:Hg; [|done].
    assert (c ∈ rankCandidates l) as Hin.
    { rewrite rankCandidates_perm, list_elem_of_filter. split; [|done].
      unfold hasGeometry. by rewrite Hg. }
    rewrite E in Hin. by apply elem_of_nil in Hin.
  - intros Hall. destruct (rankCandidates l) as [|c rest] eqn:E; [done|].
    assert (c ∈ rankCandidates l) as Hin by (rewrite E; by left).
    apply rankCandidates_geometry in Hin as [Hin [g Hg]].
    rewrite Forall_forall in Hall. specialize (Hall c Hin). congruence.
Qed.

(** ** Running the monad *)

Lemma logged_calls c w : calls (logged c w) = calls w ++ [c].
Proof. done. Qed.

Lemma logged_store c w : store (logged c w) = store w.
Proof. done. Qed.

Lemma logged_instant c w : length (calls (logged c w)) = S (length (calls w)).
Proof. simpl. rewrite length_app. simpl. lia. Qed.

(** ** The Language Normalizer *)

(** C7.  When the detection answers, and no target is asked for or the
    target is the detected language, [translateText] returns the text it
    was given, tagged with the detected language; the translation
    service is not called. *)
Theorem translateText_same_language (env : Env) (s : list N)
    (targetLang : option (list N)) (w : World) (sourceLang : list N) :
  detect env (length (calls w)) s = Some sourceLang →
  targetLang = None ∨ targetLang = Some [] ∨ targetLang = Some sourceLang →
  translateText env (JStr s) targetLang w
  = (Ok {| ttext := s; lang := sourceLang |}, logged (Detect s) w).
Proof.
  intros Hdetect Htarget.
  unfold translateText, tryCatch, bind, remote. rewrite Hdetect.
  destruct Htarget as [->|[->| ->]]; [done|done|].
  destruct sourceLang as [|c l]; [done|]. by rewrite decide_True.
Qed.

Lemma translateText_same_language_witness :
  translateText Sample.env (JStr (str "Chiang Mai")) (Some (str "th")) Sample.start
  = (Ok {| ttext := str "Chiang Mai"; lang := str "th" |},
     logged (Detect (str "Chiang Mai")) Sample.start).
Proof.
  apply (translateText_same_language Sample.env (str "Chiang Mai") (Some (str "th"))
           Sample.start (str "th")).
  - reflexivity.
  - right. right. reflexivity.
Defined.

(** C8 (as amended).  On an input that is not a string [translateText]
    calls no service.  It raises when the input cannot be written to the
    log or converted: when [JSON.stringify] raises on it (a [BigInt], say)
    or its [toString] is missing, not callable or raises (an object of
    plain data with a key [toString], say).  Otherwise the result is
    tagged with the default language, and its text is the string
    conversion of the input when there is one and it is not empty, and the
    fixed error text otherwise (for [null], [undefined] and the empty
    array, say). *)
Theorem translateText_not_a_string (env : Env) (v : JsValue)
    (targetLang : option (list N)) (w : World) :
  (∀ s, v ≠ JStr s) →
  ∃ outcome,
    translateText env v targetLang w = (outcome, w)
    ∧ (outcome = Throw ↔ serialises v = false ∨ optToString env v = None)
    ∧ ((∃ z, v = JBigInt z) → outcome = Throw)
    ∧ (∀ fields, v = JObj fields → str "toString" ∈ map fst fields → outcome = Throw)
    ∧ (v = JUndefined ∨ v = JNull ∨ v = JArr [] →
       outcome = Ok {| ttext := invalidText; lang := str "th" |})
    ∧ (∀ b, v = JBool b →
         outcome = Ok {| ttext := if b then str "true" else str "false"; lang := str "th" |})
    ∧ ∀ t, outcome = Ok t →
        lang t = str "th"
        ∧ (v = JUndefined ∨ v = JNull ∨ toString env v = Some [] → ttext t = invalidText)
        ∧ (∀ s, toString env v = Some s → s ≠ [] → ttext t = s).
Proof.
  intros Hv.
  assert (translateText env v targetLang w
          = (if serialises v
             then match optToString env v with
                  | Some converted =>
                    Ok {| ttext := orElse (default [] converted) invalidText;
                          lang := str "th" |}
                  | None => Throw
                  end
             else Throw, w)) as ->.
  { destruct v; try (by destruct (Hv s)); unfold translateText;
      destruct (serialises _); try reflexivity; by destruct (optToString env _). }
  eexists. split; [reflexivity|]. split; [|split; [|split; [|split; [|split]]]].
  - destruct (serialises v); [|by split; [left|]].
    destruct (optToString env v); split; try done; [by intros [|]|by right].
  - by intros [z ->].
  - intros fields -> Hkey. simpl. by rewrite bool_decide_eq_true_2.
  - by intros [->|[->| ->]].
  - intros b ->. by destruct b.
  - intros t Ht. destruct (serialises v); [|done].
    destruct (optToString env v) as [converted|] eqn:E; [|done].
    injection Ht as <-. simpl. split; [done|]. split.
    + intros [->|[->|Hs]]; [by injection E as <-..|].
      assert (converted = Some []) as ->; [|done].
      destruct v; try done; unfold optToString in E; rewrite Hs in E; by injection E.
    + intros s Hs Hne.
      assert (converted = Some s) as ->; [|by destruct s].
      destruct v; try done; unfold optToString in E; rewrite Hs in E; by injection E.
Qed.

Lemma translateText_not_a_string_witness :
  ∃ outcome,
    translateText Sample.env JNull None Sample.start = (outcome, Sample.start)
    ∧ outcome = Ok {| ttext := invalidText; lang := str "th" |}.
Proof.
  destruct (translateText_not_a_string Sample.env JNull None Sample.start)
    as (outcome & Hrun & _ & _ & _ & _ & _ & Htext).
  - intros s. discriminate.
  - exists outcome. split; [exact Hrun|].
    destruct outcome as [t|]; [|by vm_compute in Hrun].
    destruct (Htext t eq_refl) as (Hlang & Hfixed & _).
    destruct t as [text language]. simpl in *. rewrite Hlang, Hfixed; [done|]. by right; left.
Defined.

(** C8, as stated, fails: a boolean is not answered with the fixed error
    text but with its own string conversion, and on a [BigInt] the call
    raises. *)
Lemma translateText_converts_or_raises :
  (∀ s, JBool true ≠ JStr s)
  ∧ (translateText Sample.env (JBool true) None Sample.start).1
    = Ok {| ttext := str "true"; lang := str "th" |}
  ∧ (translateText Sample.env (JBool true) None Sample.start).1
    ≠ Ok {| ttext := invalidText; lang := str "th" |}
  ∧ (∀ s, JBigInt 7 ≠ JStr s)
  ∧ (translateText Sample.env (JBigInt 7) None Sample.start).1 = Throw
  ∧ (∀ s, JObj [(str "toString", JsonNum 1)] ≠ JStr s)
  ∧ (translateText Sample.env (JObj [(str "toString", JsonNum 1)]) None Sample.start).1 = Throw.
Proof.
  split; [done|]. split; [done|]. split; [vm_compute; discriminate|].
  split; [done|]. split; [done|]. split; [done|]. vm_compute. reflexivity.
Qed.

(** ** The Place Resolver *)

(** The resolver never raises and issues one text search. *)
Lemma getLocationFromGooglePlaces_run env placeName type w :
  getLocationFromGooglePlaces env placeName type w
  = (Ok (match textSearch env (length (calls w)) (searchQueryOf env placeName) type with
         | Some candidates => chooseCandidate candidates
         | None => None
         end),
     logged (TextSearch (searchQueryOf env placeName) type) w).
Proof.
  unfold getLocationFromGooglePlaces, tryCatch, bind, remote, ret.
  destruct (textSearch env _ _ _); reflexivity.
Qed.

Lemma chooseCandidate_ranked l :
  chooseCandidate (Some l) = head (rankCandidates l) ≫= placeRecord.
Proof.
  destruct l as [|c l]; [reflexivity|]. unfold chooseCandidate.
  destruct (rankCandidates (c :: l)); reflexivity.
Qed.

Lemma placeRecord_fields place :
  match geometry place ≫= location with
  | Some spot =>
    ∃ r, placeRecord place = Some r
      ∧ placeId r = place_id place ∧ name r = cname place
      ∧ latitude r = lat spot ∧ longitude r = lng spot
      ∧ address r = match formatted_address place with
                    | Some (c :: a) => c :: a
                    | _ => str "ไม่มีข้อมูลที่อยู่"
                    end
      ∧ photoReference r = match photos place with
                           | Some reference :: _ => Some reference
                           | _ => None
                           end
      ∧ prating r = match rating place with
                    | Some q => if Qeq_bool q 0 then None else Some q
                    | None => None
                    end
      ∧ userRatingsTotal r = match user_ratings_total place with
                             | Some n => n
                             | None => 0%Q
                             end
  | None => placeRecord place = None
  end.
Proof.
  unfold placeRecord. destruct (geometry place ≫= location) as [spot|]; [|done].
  eexists. split; [reflexivity|]. cbn [placeId name latitude longitude address
                                       photoReference prating userRatingsTotal].
  split; [done|]. split; [done|]. split; [done|]. split; [done|].
  split; [by destruct (formatted_address place) as [[|c a]|]|].
  split; [by destruct (photos place) as [|[reference|] rest]|].
  split; [by destruct (rating place)|by destruct (user_ratings_total place)].
Qed.

(** C3 (as amended).  Of the result list of a text search the resolver
    keeps the entries that have a geometry field, without looking inside
    it, orders them by rating, then by rating count, both descending and a
    missing value counting as 0, and answers from the first one alone:
    not-found when the geometry of that entry has no location, and
    otherwise its projection, which holds the place id and name of the
    entry, the latitude and longitude as the location holds them (either
    may be missing), the address or the fixed text when there is none, the
    first photo reference, the rating ([None], shown as N/A, when missing
    or 0) and the rating count or 0.  The entry answered from is one that
    no other entry with a geometry outranks, and when no entry has a
    geometry, or the list is empty or absent, the answer is not-found. *)
Theorem resolver_returns_top_rated (env : Env) (placeName type : list N) (w : World)
    (results : option (list Candidate)) :
  textSearch env (length (calls w)) (searchQueryOf env placeName) type = Some results →
  ∃ answer,
    getLocationFromGooglePlaces env placeName type w
    = (Ok answer, logged (TextSearch (searchQueryOf env placeName) type) w)
    ∧ (∀ l, results = Some l →
         rankCandidates l ≡ₚ filter (λ c, hasGeometry c = true) l
         ∧ StronglySorted ranksAtLeast (rankCandidates l)
         ∧ match rankCandidates l with
           | [] => answer = None
           | place :: _ =>
             place ∈ l
             ∧ is_Some (geometry place)
             ∧ (∀ c, c ∈ l → is_Some (geometry c) → ranksAtLeast place c)
             ∧ match geometry place ≫= location with
               | None => answer = None
               | Some spot =>
                 ∃ r, answer = Some r
                   ∧ placeId r = place_id place
                   ∧ name r = cname place
                   ∧ latitude r = lat spot
                   ∧ longitude r = lng spot
                   ∧ address r = match formatted_address place with
                                 | Some (c :: a) => c :: a
                                 | _ => str "ไม่มีข้อมูลที่อยู่"
                                 end
                   ∧ photoReference r = match photos place with
                                        | Some reference :: _ => Some reference
                                        | _ => None
                                        end
                   ∧ prating r = match rating place with
                                 | Some q => if Qeq_bool q 0 then None else Some q
                                 | None => None
                                 end
                   ∧ userRatingsTotal r = match user_ratings_total place with
                                          | Some n => n
                                          | None => 0%Q
                                          end
               end
           end)
    ∧ ((∀ l, results = Some l → Forall (λ c, geometry c = None) l) → answer = None).
Proof.
  intros Hsearch. exists (chooseCandidate results).
  rewrite getLocationFromGooglePlaces_run, Hsearch. split; [done|]. split.
  - intros l ->. split; [apply rankCandidates_perm|].
    split; [apply rankCandidates_sorted|]. rewrite chooseCandidate_ranked.
    destruct (rankCandidates l) as [|place rest] eqn:E; [done|].
    destruct (rankCandidates_head l place rest E) as (Hin & Hgeometry & Htop).
    split; [done|]. split; [done|]. split; [done|]. simpl.
    pose proof (placeRecord_fields place) as Hfields.
    destruct (geometry place ≫= location) as [spot|]; [|done].
    destruct Hfields as (r & -> & Hfields). by exists r.
  - destruct results as [l|]; [|done]. intros Hall.
    specialize (Hall l eq_refl). apply rankCandidates_nil in Hall.
    by rewrite chooseCandidate_ranked, Hall.
Qed.

Lemma resolver_returns_top_rated_witness :
  ∃ answer,
    getLocationFromGooglePlaces Sample.env (str "Doi Suthep") tourist_attraction Sample.start
    = (Ok answer,
       logged (TextSearch (searchQueryOf Sample.env (str "Doi Suthep")) tourist_attraction)
              Sample.start)
    ∧ (name <$> answer) = Some (str "Wat Phra That Doi Suthep")
    ∧ (answer ≫= latitude) = Some (188049 # 10000)%Q.
Proof.
  destruct (resolver_returns_top_rated Sample.env (str "Doi Suthep") tourist_attraction
              Sample.start
              (Some [Sample.unplaced; Sample.unrated; Sample.viewpoint; Sample.doiSuthep]))
    as (answer & Hrun & Hrank & _).
  - vm_compute. reflexivity.
  - exists answer. split; [exact Hrun|].
    destruct (Hrank _ eq_refl) as (_ & _ & Htop).
    assert (rankCandidates [Sample.unplaced; Sample.unrated; Sample.viewpoint; Sample.doiSuthep]
            = [Sample.doiSuthep; Sample.viewpoint; Sample.unrated]) as E
      by (vm_compute; reflexivity).
    rewrite E in Htop. destruct Htop as (_ & _ & _ & Htop).
    change (geometry Sample.doiSuthep ≫= location)
      with (Some {| lat := Some (188049 # 10000)%Q; lng := Some (989216 # 10000)%Q |}) in Htop.
    destruct Htop as (r & -> & _ & Hname & Hlat & _). simpl.
    rewrite Hname, Hlat. split; reflexivity.
Defined.

(** C3, as stated, fails: an entry whose geometry holds no coordinates is
    not discarded, and the record answered from it has none; and when the
    entry ranked first has a geometry without location, the answer is
    not-found although another entry has its coordinates. *)
Lemma resolver_answers_without_coordinates :
  (∃ r,
     (getLocationFromGooglePlaces Sparse.env (str "Doi Suthep Market") tourist_attraction
                                  Sample.start).1
     = Ok (Some r)
     ∧ name r = cname Sparse.unlocated
     ∧ latitude r = None ∧ longitude r = None)
  ∧ (getLocationFromGooglePlaces Sparse.env (str "Doi Suthep") tourist_attraction
                                 Sample.start).1
    = Ok None
  ∧ is_Some ((geometry Sample.doiSuthep ≫= location) ≫= lat).
Proof.
  split; [|split].
  - eexists. split; [vm_compute; reflexivity|]. split; [|split]; vm_compute; reflexivity.
  - vm_compute. reflexivity.
  - by eexists.
Qed.

(** ** The chat history *)

Lemma arrayUnion_prefix stored elems : stored `prefix_of` arrayUnion stored elems.
Proof.
  unfold arrayUnion. revert stored.
  induction elems as [|e elems IH]; intros stored; simpl; [done|].
  destruct (decide (e ∈ stored)); [apply IH|].
  etrans; [|apply IH]. by apply prefix_app_r.
Qed.

Lemma sliceLast_suffix {A} n (l : list A) : sliceLast n l `suffix_of` l.
Proof. apply suffix_drop. Qed.

Lemma sliceLast_length {A} n (l : list A) :
  (n ≤ length l)%nat → length (sliceLast n l) = n.
Proof. intros H. unfold sliceLast. rewrite length_drop. lia. Qed.

Lemma recentHistory_window userDoc :
  let stored := default [] (messages <$> userDoc) in
  recentHistory userDoc [] `suffix_of` stored
  ∧ length (recentHistory userDoc []) = (length stored `min` 10)%nat.
Proof.
  destruct userDoc as [d|]; simpl; [|done].
  destruct (decide (10 < length (messages d))%nat).
  - split; [apply sliceLast_suffix|]. rewrite sliceLast_length; lia.
  - split; [done|lia].
Qed.

Ltac pick_call Hc :=
  repeat (apply elem_of_cons in Hc as [->|Hc]; [by auto|]); by apply elem_of_nil in Hc.

Lemma getAccessToken_run env w :
  getAccessToken env w = (Ok (accessToken env (length (calls w))), logged Token w).
Proof.
  unfold getAccessToken, tryCatch, bind, remote, ret.
  destruct (accessToken env _); reflexivity.
Qed.

(** One call of [getAIResponse]: the calls it adds and the store it leaves. *)
Lemma getAIResponse_effect env userId userMessage w :
  let w' := (getAIResponse env userId userMessage [] w).2 in
  let contents := recentHistory (store w !! userId) [] ++ [userTurn userMessage] in
  (∃ new, calls w' = calls w ++ new
          ∧ ∀ c, c ∈ new → c = Token ∨ c = StoreGet userId ∨ c = StoreSet userId
                           ∨ c = Complete contents)
  ∧ (store w' = store w
     ∨ ∃ reply time,
         store w' = <[userId := {| messages :=
                                     arrayUnion (default [] (messages <$> store w !! userId))
                                                (contents ++ [{| role := model; text := reply |}]);
                                   lastUpdated := time |}]> (store w)).
Proof.
  unfold getAIResponse, bind. rewrite getAccessToken_run.
  assert (∀ c : Call, c ∈ [Token] → c = Token ∨ c = StoreGet userId ∨ c = StoreSet userId
            ∨ c = Complete (recentHistory (store w !! userId) [] ++ [userTurn userMessage]))
    as Htoken by (intros c ->%list_elem_of_singleton; by left).
  destruct (accessToken env (length (calls w))) as [[|t ts]|]; simpl;
    [split; [by exists [Token]|by left]| |split; [by exists [Token]|by left]].
  unfold tryCatch, bind, getDoc, remote, setDocMerge, ret. simpl.
  destruct (storeUp env _); simpl.
  2: { split; [|by left]. exists [Token; StoreGet userId]. split; [reassoc|].
       intros c Hc. pick_call Hc. }
  destruct (complete env _ _) as [response|]; simpl.
  2: { split; [|by left]. eexists [Token; StoreGet userId; Complete _]. split; [reassoc|].
       intros c Hc. pick_call Hc. }
  destruct (storeUp env _); simpl.
  - split; [|right; by eexists _, _].
    eexists [Token; StoreGet userId; Complete _; StoreSet userId]. split; [reassoc|].
    intros c Hc. pick_call Hc.
  - split; [|by left].
    eexists [Token; StoreGet userId; Complete _; StoreSet userId]. split; [reassoc|].
    intros c Hc. pick_call Hc.
Qed.

(** C1 (as amended).  An append by the chat-history component reads back
    at most the 10 most recent stored turns and hands them, followed by
    the new user turn, to the completion service; the stored document is
    only extended: the turns it held stay in place in front of the ones
    added by the array union, and no turn is ever dropped from it. *)
Theorem history_window_is_ten_store_only_grows (env : Env) (userId userMessage : list N)
    (w : World) :
  let w' := (getAIResponse env userId userMessage [] w).2 in
  let stored (x : World) (u : list N) := default [] (messages <$> store x !! u) in
  (∃ new, calls w' = calls w ++ new
     ∧ ∀ contents, Complete contents ∈ new →
         ∃ recent, contents = recent ++ [userTurn userMessage]
           ∧ recent `suffix_of` stored w userId
           ∧ length recent = (length (stored w userId) `min` 10)%nat)
  ∧ (∀ u, stored w u `prefix_of` stored w' u).
Proof.
  pose proof (getAIResponse_effect env userId userMessage w) as H.
  cbv zeta in *. destruct H as [(new & Hnew & Hcalls) Hstore].
  split.
  - exists new. split; [done|]. intros contents Hin.
    destruct (Hcalls _ Hin) as [?|[?|[?|[= ->]]]]; [done..|].
    eexists. split; [done|]. apply recentHistory_window.
  - intros u.
    destruct Hstore as [->|(reply & time & ->)]; [done|].
    destruct (decide (userId = u)) as [->|Hne].
    + rewrite lookup_insert_eq. simpl. apply arrayUnion_prefix.
    + by rewrite lookup_insert_ne.
Qed.

(** C1, as stated, fails: six appends with different questions leave
    twelve turns in the stored document. *)
Lemma history_holds_twelve_turns_after_six_appends :
  let w := (mapM (λ question, getAIResponse Sample.env Sample.someone question [])
                 Sample.questions Sample.start).2 in
  (length ∘ messages) <$> store w !! Sample.someone = Some 12%nat
  ∧ (10 < 12)%nat.
Proof.
  split; [|lia]. vm_compute. reflexivity.
Qed.

(** ** The Hotel Finder *)

Lemma chooseHotels_ranked results :
  chooseHotels results = map hotelRecord (take 3 (rankCandidates results))
  ∧ (length (chooseHotels results) ≤ 3)%nat
  ∧ Forall (λ c, is_Some (geometry c)) (rankCandidates results).
Proof.
  split; [done|]. split.
  - unfold chooseHotels. rewrite length_map, length_take. lia.
  - apply Forall_forall. intros c Hc. by apply rankCandidates_geometry in Hc as [_ ?].
Qed.

Lemma orZero_orNA x : (orZero (orNA x) == orZero x)%Q.
Proof.
  destruct x as [q|]; simpl; [|reflexivity]. unfold isZero.
  destruct (Qeq_bool q 0) eqn:E; simpl; [|reflexivity].
  apply Qeq_bool_eq in E. by rewrite E.
Qed.

Lemma hotelRecord_listed a b : ranksAtLeast a b → listedAtLeast (hotelRecord a) (hotelRecord b).
Proof.
  unfold ranksAtLeast, listedAtLeast. simpl. by rewrite !orZero_orNA.
Qed.

Lemma StronglySorted_take {A} (R : A → A → Prop) n l :
  StronglySorted R l → StronglySorted R (take n l).
Proof.
  intros Hl. revert n. induction Hl as [|x l Hl IH Hx]; intros [|n]; simpl; try constructor.
  - apply IH.
  - by apply Forall_take.
Qed.

Lemma StronglySorted_map {A B} (R : A → A → Prop) (S : B → B → Prop) (f : A → B) l :
  (∀ x y, R x y → S (f x) (f y)) → StronglySorted R l → StronglySorted S (map f l).
Proof.
  intros Hf. induction 1 as [|x l Hl IH Hx]; simpl; constructor; [done|].
  apply Forall_map. eapply Forall_impl; [done|]. intros y. apply Hf.
Qed.

Lemma chooseHotels_listed results :
  StronglySorted listedAtLeast (chooseHotels results).
Proof.
  unfold chooseHotels. apply StronglySorted_map with (R := ranksAtLeast).
  - apply hotelRecord_listed.
  - apply StronglySorted_take, rankCandidates_sorted.
Qed.

(** The anchor is the first resolution that answers, else the fixed pair;
    only text searches are issued on the way, one per resolution tried. *)
Lemma searchLocationOf_run env placeName w :
  let n := length (calls w) in
  let anchor :=
    match resolution env n placeName with
    | Some p => (latitude p, longitude p)
    | None =>
      match resolution env (S n) (str "Chiang Mai, Thailand") with
      | Some p => (latitude p, longitude p)
      | None =>
        match resolution env (S (S n)) (str "Bangkok, Thailand") with
        | Some p => (latitude p, longitude p)
        | None => (Some fallbackLatitude, Some fallbackLongitude)
        end
      end
    end in
  ∃ lookups,
    searchLocationOf env placeName w
    = (Ok anchor, {| store := store w; calls := calls w ++ lookups |})
    ∧ Forall (λ c, ∃ q, c = TextSearch q tourist_attraction) lookups.
Proof.
  cbv zeta. unfold searchLocationOf, bind.
  rewrite getLocationFromGooglePlaces_run. fold (resolution env (length (calls w)) placeName).
  destruct (resolution env (length (calls w)) placeName) as [p|].
  { eexists [_]. split; [reflexivity|]. repeat constructor. by eexists. }
  rewrite getLocationFromGooglePlaces_run, logged_instant.
  fold (resolution env (S (length (calls w))) (str "Chiang Mai, Thailand")).
  destruct (resolution env (S (length (calls w))) (str "Chiang Mai, Thailand")) as [p|].
  { eexists [_; _]. split; [unfold ret, logged; simpl; by rewrite <- app_assoc|].
    repeat constructor; by eexists. }
  rewrite getLocationFromGooglePlaces_run, !logged_instant.
  fold (resolution env (S (S (length (calls w)))) (str "Bangkok, Thailand")).
  eexists [_; _; _]. split.
  - unfold ret, logged; simpl. rewrite <- !app_assoc. simpl.
    by destruct (resolution env (S (S (length (calls w)))) (str "Bangkok, Thailand")).
  - repeat constructor; by eexists.
Qed.

Lemma getHotelsNearPlace_after env placeName w anchor w1 :
  searchLocationOf env placeName w = (Ok anchor, w1) →
  getHotelsNearPlace env placeName w
  = (Ok (match nearbySearch env (length (calls w1)) anchor.1 anchor.2 with
         | Some results => chooseHotels results
         | None => []
         end),
     logged (NearbySearch anchor.1 anchor.2 20000 lodging) w1).
Proof.
  intros Hrun. unfold getHotelsNearPlace, bind. rewrite Hrun. destruct anchor as [la lo].
  unfold tryCatch, bind, remote, ret. simpl.
  destruct (nearbySearch env (length (calls w1)) la lo); reflexivity.
Qed.

(** C4.  The Hotel Finder centres its search on the first of the
    destination, Chiang Mai and Bangkok that resolves, and on the pair
    18.7883, 98.9857 when none does; in every case, that one included,
    it then issues one nearby search for lodging within 20000 metres of
    the anchor and returns at most 3 records: one for each of the first
    three of the results that have a geometry, ordered by rating, then
    rating count, descending (none when the search fails).  Each record
    holds the name of its result, the vicinity as address or the fixed
    text when there is none, the first photo reference, the coordinates of
    the geometry ([None] when missing or 0), the rating ([None], shown as
    N/A, when missing or 0) and the rating count or 0; the records
    themselves are in rating order. *)
Theorem hotelFinder_anchor_and_ranking (env : Env) (placeName : list N) (w : World) :
  let n := length (calls w) in
  let anchor :=
    match resolution env n placeName with
    | Some p => (latitude p, longitude p)
    | None =>
      match resolution env (S n) (str "Chiang Mai, Thailand") with
      | Some p => (latitude p, longitude p)
      | None =>
        match resolution env (S (S n)) (str "Bangkok, Thailand") with
        | Some p => (latitude p, longitude p)
        | None => (Some (187883 # 10000)%Q, Some (989857 # 10000)%Q)
        end
      end
    end in
  ∃ hotels lookups ranked,
    let resolved := {| store := store w; calls := calls w ++ lookups |} in
    getHotelsNearPlace env placeName w
    = (Ok hotels, logged (NearbySearch anchor.1 anchor.2 20000 (str "lodging")) resolved)
    ∧ Forall (λ c, ∃ q, c = TextSearch q tourist_attraction) lookups
    ∧ (length hotels ≤ 3)%nat
    ∧ Forall2 (λ hotel c,
                 let orNull x :=
                   match x with
                   | Some q => if Qeq_bool q 0 then None else Some q
                   | None => None
                   end in
                 hname hotel = cname c
                 ∧ haddress hotel = match vicinity c with
                                    | Some (d :: a) => d :: a
                                    | _ => str "ไม่มีข้อมูลที่อยู่"
                                    end
                 ∧ hphotoReference hotel = match photos c with
                                           | Some reference :: _ => Some reference
                                           | _ => None
                                           end
                 ∧ hlatitude hotel = orNull ((geometry c ≫= location) ≫= lat)
                 ∧ hlongitude hotel = orNull ((geometry c ≫= location) ≫= lng)
                 ∧ hrating hotel = orNull (rating c)
                 ∧ huserRatingsTotal hotel = match user_ratings_total c with
                                             | Some n => n
                                             | None => 0%Q
                                             end)
              hotels (take 3 ranked)
    ∧ StronglySorted listedAtLeast hotels
    ∧ StronglySorted ranksAtLeast ranked
    ∧ Forall (λ c, is_Some (geometry c)) ranked
    ∧ match nearbySearch env (length (calls resolved)) anchor.1 anchor.2 with
      | Some results => ranked ≡ₚ filter (λ c, hasGeometry c = true) results
      | None => ranked = []
      end.
Proof.
  pose proof (searchLocationOf_run env placeName w) as H. cbv zeta in *.
  change (187883 # 10000)%Q with fallbackLatitude.
  change (989857 # 10000)%Q with fallbackLongitude.
  destruct H as (lookups & Hrun & Hlookups).
  rewrite (getHotelsNearPlace_after _ _ _ _ _ Hrun).
  match goal with |- context [nearbySearch env ?n ?la ?lo] =>
    destruct (nearbySearch env n la lo) as [results|] eqn:Hnear end.
  - exists (chooseHotels results), lookups, (rankCandidates results).
    destruct (chooseHotels_ranked results) as (Hh & Hlen & Hgeo).
    split; [done|]. split; [done|]. split; [done|]. split.
    { rewrite Hh. apply Forall2_fmap_l, Forall_Forall2_diag, Forall_forall.
      intros c _. cbv zeta. unfold hotelRecord.
      cbn [hname haddress hphotoReference hlatitude hlongitude hrating huserRatingsTotal].
      split; [done|]. split; [by destruct (vicinity c) as [[|d a]|]|].
      split; [by destruct (photos c) as [|[reference|] rest]|].
      split; [done|]. split; [done|]. split; [done|].
      by destruct (user_ratings_total c). }
    split; [apply chooseHotels_listed|].
    split; [apply rankCandidates_sorted|]. split; [done|]. simpl in *.
    rewrite Hnear. apply rankCandidates_perm.
  - exists [], lookups, [].
    split; [done|]. split; [done|]. split; [simpl; lia|]. split; [constructor|].
    split; [constructor|]. split; [constructor|]. split; [constructor|].
    simpl in *. by rewrite Hnear.
Qed.

(** ** Rules of the monad *)

Section Rules.

Context {A B : Type}.
Implicit Types (m : M A) (k : A → M B).

Lemma returns_ret (a : A) : Returns (ret a).
Proof. intros w. by eexists _, _. Qed.

Lemma returns_bind m k : Returns m → (∀ a, Returns (k a)) → Returns (bind m k).
Proof.
  intros Hm Hk w. destruct (Hm w) as (a & w1 & E). destruct (Hk a w1) as (b & w2 & E').
  exists b, w2. unfold bind. by rewrite E.
Qed.

Lemma returns_tryCatch (m h : M A) : Returns h → Returns (tryCatch m h).
Proof.
  intros Hh w. unfold tryCatch. destruct (m w) as [[a|] w1]; [by eexists _, _|apply Hh].
Qed.

Lemma yields_ret (a : A) (P : A → Prop) : P a → Yields (ret a) P.
Proof. intros Ha w a' w' [= <- _]. done. Qed.

Lemma yields_bind m k (P : B → Prop) : (∀ a, Yields (k a) P) → Yields (bind m k) P.
Proof.
  intros Hk w b w'. unfold bind. destruct (m w) as [[a|] w1]; [|done]. apply Hk.
Qed.

Lemma yields_bind_with m k (P : A → Prop) (Q : B → Prop) :
  Yields m P → (∀ a, P a → Yields (k a) Q) → Yields (bind m k) Q.
Proof.
  intros Hm Hk w b w'. unfold bind. destruct (m w) as [[a|] w1] eqn:E; [|done].
  apply Hk. by eapply Hm.
Qed.

Lemma quiet_ret (a : A) (P : A → Prop) : P a → Quiet (ret a) P.
Proof.
  intros Ha w. exists a, []. rewrite app_nil_r. split; [by destruct w|]. by split.
Qed.

Lemma quiet_bind m k (P : A → Prop) (Q : B → Prop) :
  Quiet m P → (∀ a, P a → Quiet (k a) Q) → Quiet (bind m k) Q.
Proof.
  intros Hm Hk w. destruct (Hm w) as (a & new & E & Hnew & Ha).
  destruct (Hk a Ha {| store := store w; calls := calls w ++ new |})
    as (b & new' & E' & Hnew' & Hb).
  exists b, (new ++ new'). unfold bind. rewrite E, E'. simpl. rewrite app_assoc.
  split; [done|]. split; [by apply Forall_app|done].
Qed.

End Rules.

Lemma returns_mapM {A B} (f : A → M B) l : (∀ x, Returns (f x)) → Returns (mapM f l).
Proof.
  intros Hf. induction l as [|x l IH]; simpl; [apply returns_ret|].
  apply returns_bind; [done|]. intros y. apply returns_bind; [done|]. intros ys. apply returns_ret.
Qed.

Lemma returns_instant : Returns instant.
Proof. intros w. by eexists _, _. Qed.

(** Steps through a computation built from [bind], [ret], conditionals
    and matches, leaving the side conditions on its parts. *)
Ltac returns_step :=
  lazymatch goal with
  | |- Returns (ret _) => apply returns_ret
  | |- Returns (bind _ _) => apply returns_bind; [|intros ?]
  | |- Returns (tryCatch _ _) => apply returns_tryCatch
  | |- Returns (mapM _ _) => apply returns_mapM; intros ?
  | |- Returns instant => apply returns_instant
  | |- Returns (if ?b then _ else _) => destruct b
  | |- Returns (match ?x with _ => _ end) => destruct x
  | |- Returns (let _ := _ in _) => cbv zeta
  end.

Ltac yields_step :=
  lazymatch goal with
  | |- Yields (ret _) _ => apply yields_ret
  | |- Yields (bind _ _) _ => apply yields_bind; intros ?
  | |- Yields (if ?b then _ else _) _ => destruct b
  | |- Yields (match ?x with _ => _ end) _ => destruct x
  | |- Yields (let _ := _ in _) _ => cbv zeta
  end.

(** ** The service wrappers always return *)

Section Wrappers.

Context (env : Env).

Lemma translateText_returns s target : Returns (translateText env (JStr s) target).
Proof. unfold translateText. repeat returns_step. Qed.

Lemma getAIResponse_returns userId userMessage previous :
  Returns (getAIResponse env userId userMessage previous).
Proof.
  unfold getAIResponse. returns_step.
  - unfold getAccessToken. repeat returns_step.
  - repeat returns_step.
Qed.

Lemma getLocationFromGooglePlaces_returns placeName type :
  Returns (getLocationFromGooglePlaces env placeName type).
Proof. unfold getLocationFromGooglePlaces. repeat returns_step. Qed.

Lemma getPlaceDetails_returns placeId : Returns (getPlaceDetails env placeId).
Proof. unfold getPlaceDetails. repeat returns_step. Qed.

Lemma searchPlaceWithCustomSearch_returns placeName context :
  Returns (searchPlaceWithCustomSearch env placeName context).
Proof. unfold searchPlaceWithCustomSearch. repeat returns_step. Qed.

Lemma getHotelsNearPlace_returns placeName : Returns (getHotelsNearPlace env placeName).
Proof.
  intros w. destruct (searchLocationOf_run env placeName w) as (lookups & Hrun & _).
  cbv zeta in Hrun. rewrite (getHotelsNearPlace_after _ _ _ _ _ Hrun). by eexists _, _.
Qed.

Lemma startLoadingAnimation_returns userId seconds :
  Returns (startLoadingAnimation env userId seconds).
Proof. unfold startLoadingAnimation. repeat returns_step. Qed.

Lemma createRecommendationCarousel_returns places :
  Returns (createRecommendationCarousel env places).
Proof.
  unfold createRecommendationCarousel. cbv zeta. returns_step.
  - returns_step. apply getLocationFromGooglePlaces_returns.
  - repeat returns_step.
Qed.

Lemma createHotelRecommendationCarousel_returns hotels :
  Returns (createHotelRecommendationCarousel env hotels).
Proof. unfold createHotelRecommendationCarousel. repeat returns_step. Qed.

Lemma sourceNote_returns : Returns (sourceNote env).
Proof. unfold sourceNote. repeat returns_step. Qed.

Lemma searchMessageFor_returns {A} (searchResults : list A) heading results lang :
  Returns (searchMessageFor env searchResults heading results lang).
Proof.
  unfold searchMessageFor. destruct searchResults; [apply returns_ret|].
  returns_step; [apply translateText_returns|apply returns_ret].
Qed.

Lemma resolvePlaces_returns places : Returns (resolvePlaces env places).
Proof.
  unfold resolvePlaces. returns_step.
  - returns_step. apply getLocationFromGooglePlaces_returns.
  - cbv zeta. returns_step; [|apply returns_ret].
    returns_step. apply searchPlaceWithCustomSearch_returns.
Qed.

End Wrappers.

Create HintDb returns discriminated.
#[export] Hint Resolve translateText_returns getAIResponse_returns
  getLocationFromGooglePlaces_returns getPlaceDetails_returns
  searchPlaceWithCustomSearch_returns getHotelsNearPlace_returns
  startLoadingAnimation_returns createRecommendationCarousel_returns
  createHotelRecommendationCarousel_returns sourceNote_returns
  searchMessageFor_returns resolvePlaces_returns : returns.

Ltac returns := repeat first [ solve [auto with returns] | returns_step ].

(** ** The dispatcher *)

Section Dispatcher.

Context (env : Env).

Lemma ends_one lang text : EndsWithMenu lang [withQuickReply text lang].
Proof. by exists [], text. Qed.

Lemma ends_cons lang x l : EndsWithMenu lang l → EndsWithMenu lang (x :: l).
Proof. intros (init & text & ->). by exists (x :: init), text. Qed.

Lemma ends_app lang l1 l2 : EndsWithMenu lang l2 → EndsWithMenu lang (l1 ++ l2).
Proof. intros (init & text & ->). exists (l1 ++ init), text. by rewrite app_assoc. Qed.

Ltac ends := repeat first [apply ends_one | apply ends_cons | apply ends_app].

Ltac yields := repeat first [yields_step | progress ends].

Lemma recommendPlaces_ends userId s lang :
  Yields (recommendPlaces env userId s lang) (EndsWithMenu lang).
Proof. unfold recommendPlaces. yields. Qed.

Lemma placeInformation_ends s lang : Yields (placeInformation env s lang) (EndsWithMenu lang).
Proof. unfold placeInformation. yields. Qed.

Lemma recommendHotels_ends s lang : Yields (recommendHotels env s lang) (EndsWithMenu lang).
Proof. unfold recommendHotels. yields. Qed.

Lemma weather_ends s lang : Yields (weather env s lang) (EndsWithMenu lang).
Proof. unfold weather. yields. Qed.

Lemma mapOfPlace_ends s lang : Yields (mapOfPlace env s lang) (EndsWithMenu lang).
Proof. unfold mapOfPlace. yields. Qed.

Lemma contact_ends lang : Yields (contact env lang) (EndsWithMenu lang).
Proof. unfold contact. yields. Qed.

Lemma freeText_ends userId userMessage lang :
  Yields (freeText env userId userMessage lang) (EndsWithMenu lang).
Proof. unfold freeText. yields. Qed.

Lemma stickerGreeting_ends lang : Yields (stickerGreeting env lang) (EndsWithMenu lang).
Proof. unfold stickerGreeting. yields. Qed.

Lemma recommendPlaces_returns userId s lang : Returns (recommendPlaces env userId s lang).
Proof. unfold recommendPlaces. returns. Qed.

Lemma placeInformation_returns s lang : Returns (placeInformation env s lang).
Proof. unfold placeInformation. returns. Qed.

Lemma recommendHotels_returns s lang : Returns (recommendHotels env s lang).
Proof. unfold recommendHotels. returns. Qed.

Lemma weather_returns s lang : Returns (weather env s lang).
Proof. unfold weather. returns. Qed.

Lemma mapOfPlace_returns s lang : Returns (mapOfPlace env s lang).
Proof. unfold mapOfPlace. returns. Qed.

Lemma contact_returns lang : Returns (contact env lang).
Proof. unfold contact. returns. Qed.

Lemma freeText_returns userId userMessage lang :
  Returns (freeText env userId userMessage lang).
Proof. unfold freeText. returns. Qed.

Lemma stickerGreeting_returns lang : Returns (stickerGreeting env lang).
Proof. unfold stickerGreeting. returns. Qed.

(** The branch taken once the language is known. *)
Lemma branches_end userId userMessage lang :
  Yields (match userMessage with
          | UObject type =>
            if decide (type = str "sticker") then stickerGreeting env lang
            else freeText env userId userMessage lang
          | UText s =>
            if isRecommendPlaces s then recommendPlaces env userId s lang
            else if startsWith infoPrefix s then placeInformation env s lang
            else if isRecommendHotels s then recommendHotels env s lang
            else if isWeather s then weather env s lang
            else if startsWith mapPrefix s then mapOfPlace env s lang
            else if decide (s = contactRequest) then contact env lang
            else freeText env userId userMessage lang
          end) (EndsWithMenu lang).
Proof.
  destruct userMessage as [s|type].
  - repeat case_match; auto using recommendPlaces_ends, placeInformation_ends,
      recommendHotels_ends, weather_ends, mapOfPlace_ends, contact_ends, freeText_ends.
  - case_match; auto using stickerGreeting_ends, freeText_ends.
Qed.

Lemma branches_return userId userMessage lang :
  Returns (match userMessage with
           | UObject type =>
             if decide (type = str "sticker") then stickerGreeting env lang
             else freeText env userId userMessage lang
           | UText s =>
             if isRecommendPlaces s then recommendPlaces env userId s lang
             else if startsWith infoPrefix s then placeInformation env s lang
             else if isRecommendHotels s then recommendHotels env s lang
             else if isWeather s then weather env s lang
             else if startsWith mapPrefix s then mapOfPlace env s lang
             else if decide (s = contactRequest) then contact env lang
             else freeText env userId userMessage lang
           end).
Proof.
  destruct userMessage as [s|type].
  - repeat case_match; auto using recommendPlaces_returns, placeInformation_returns,
      recommendHotels_returns, weather_returns, mapOfPlace_returns, contact_returns,
      freeText_returns.
  - case_match; auto using stickerGreeting_returns, freeText_returns.
Qed.

Lemma detection_language s :
  Yields (translateText env (JStr s) None)
         (λ detected, DetectedFor env (UText s) (lang detected)).
Proof.
  intros w t w'. unfold translateText, tryCatch, bind, remote, ret. simpl.
  destruct (detect env (length (calls w)) s) as [l|] eqn:E; intros [= <- _]; simpl.
  - right. by eexists.
  - by left.
Qed.

Lemma dispatcher_ends userId userMessage token :
  Yields (getAIResponseWithMedia env userId userMessage token)
         (λ messages, ∃ lang, DetectedFor env userMessage lang ∧ EndsWithMenu lang messages).
Proof.
  unfold getAIResponseWithMedia. apply yields_bind; intros _. apply yields_bind; intros userDoc.
  cbv zeta.
  apply (yields_bind_with _ _ (DetectedFor env userMessage)).
  - destruct userMessage as [s|type].
    + apply yields_bind_with with (P := λ detected, DetectedFor env (UText s) (lang detected)).
      * apply detection_language.
      * intros detected H. by apply yields_ret.
    + by apply yields_ret.
  - intros lang Hlang w messages w' Hrun. exists lang. split; [done|].
    by eapply branches_end.
Qed.

Lemma dispatcher_returns userId userMessage token w :
  storeUp env (S (length (calls w))) = true →
  ∃ messages w', getAIResponseWithMedia env userId userMessage token w = (Ok messages, w').
Proof.
  intros Hup. unfold getAIResponseWithMedia. unfold bind at 1.
  destruct (startLoadingAnimation_returns env userId (Some 5%Q) w) as (started & w1 & Hstart).
  rewrite Hstart.
  assert (length (calls w1) = S (length (calls w))) as Hw1.
  { revert Hstart. unfold startLoadingAnimation, tryCatch, bind, remote, ret. cbv zeta.
    destruct (loading env _); intros [= _ <-]; apply logged_instant. }
  unfold bind at 1. unfold getDoc at 1. rewrite Hw1, Hup.
  apply returns_bind.
  - destruct userMessage; returns.
  - intros lang. apply branches_return.
Qed.

End Dispatcher.

(** C9.  Whenever the dispatcher returns a reply list, the list is not
    empty and its last message is a text message carrying the quick-reply
    menu of the three fixed actions (recommend places, recommend hotels,
    the trip-planner link), labelled in the language the dispatcher
    detected; this holds in every branch, the fallback ones included. *)
Theorem replies_end_with_menu (env : Env) (userId : list N) (userMessage : UserMessage)
    (token : list N) (w w' : World) (messages : list Message) :
  getAIResponseWithMedia env userId userMessage token w = (Ok messages, w') →
  ∃ init text lang places hotels plan,
    messages = init ++ [{| body := Text text;
                           quickReply := Some {| items :=
                             [ MessageAction places (str "แนะนำที่เที่ยว");
                               MessageAction hotels (str "แนะนำโรงแรม");
                               UriAction plan (str "https://tripster-plans.netlify.app/") ] |} |}]
    ∧ DetectedFor env userMessage lang
    ∧ (places, hotels, plan)
      = if decide (lang = str "th")
        then (str "แนะนำที่เที่ยว", str "แนะนำโรงแรม", str "สร้างแผนการเดินทาง")
        else (str "Recommend Places", str "Recommend Hotels", str "Create Travel Plan").
Proof.
  intros Hrun.
  destruct (dispatcher_ends env userId userMessage token w messages w' Hrun)
    as (lang & Hlang & init & text & ->).
  exists init, text, lang. unfold withQuickReply, createQuickReply.
  destruct (decide (lang = str "th")) as [E|E].
  - rewrite (bool_decide_eq_true_2 _ E). by eexists _, _, _.
  - rewrite (bool_decide_eq_false_2 _ E). by eexists _, _, _.
Qed.

Lemma replies_end_with_menu_witness :
  ∃ messages w',
    getAIResponseWithMedia Sample.env Sample.someone (UText contactRequest) (str "token")
                           Sample.start = (Ok messages, w')
    ∧ ∃ init last_message, messages = init ++ [last_message]
        ∧ is_Some (quickReply last_message).
Proof.
  eexists _, _. split.
  - vm_compute. reflexivity.
  - edestruct (replies_end_with_menu Sample.env Sample.someone (UText contactRequest)
                 (str "token") Sample.start)
      as (init & text & lang & places & hotels & plan & Hm & _).
    + vm_compute. reflexivity.
    + eexists _, _. split; [exact Hm|]. simpl. eexists. reflexivity.
Defined.

(** ** The region gate *)

Lemma startLoadingAnimation_run env userId w :
  startLoadingAnimation env userId (Some 5%Q) w
  = (Ok (loading env (length (calls w))), logged (LoadingStart userId 5) w).
Proof.
  unfold startLoadingAnimation, tryCatch, bind, remote, ret.
  change (loadingSeconds (Some 5%Q)) with 5%Q. cbv zeta.
  destruct (loading env _); reflexivity.
Qed.

(** The dispatcher up to the point where the store has answered. *)
Lemma dispatcher_start env userId userMessage token w :
  storeUp env (S (length (calls w))) = true →
  getAIResponseWithMedia env userId userMessage token w
  =           (let* detectedLang :=
                 match userMessage with
                 | UText s => let* detected := translateText env (JStr s) None in
                              ret (lang detected)
                 | UObject _ => ret (str "th")
                 end in
               match userMessage with
               | UObject type =>
                 if decide (type = str "sticker") then stickerGreeting env detectedLang
                 else freeText env userId userMessage detectedLang
               | UText s =>
                 if isRecommendPlaces s then recommendPlaces env userId s detectedLang
                 else if startsWith infoPrefix s then placeInformation env s detectedLang
                 else if isRecommendHotels s then recommendHotels env s detectedLang
                 else if isWeather s then weather env s detectedLang
                 else if startsWith mapPrefix s then mapOfPlace env s detectedLang
                 else if decide (s = contactRequest) then contact env detectedLang
                 else freeText env userId userMessage detectedLang
               end)
      {| store := store w; calls := calls w ++ [LoadingStart userId 5; StoreGet userId] |}.
Proof.
  intros Hup.
  unfold getAIResponseWithMedia. unfold bind at 1. rewrite startLoadingAnimation_run.
  unfold bind at 1. unfold getDoc at 1. rewrite logged_instant, Hup.
  unfold logged. simpl. rewrite <- app_assoc. reflexivity.
Qed.

Lemma translateText_quiet env s target :
  Quiet (translateText env (JStr s) target)
        (λ t, match target with
              | Some lang => RenderingOf env s lang (ttext t)
              | None => ttext t = s
              end).
Proof.
  intros w. unfold translateText, tryCatch, bind, remote, ret, RenderingOf. simpl.
  destruct (detect env (length (calls w)) s) as [sourceLang|].
  - destruct target as [[|c target]|].
    + eexists _, [_]. split; [reflexivity|]. split; [by repeat constructor|by left].
    + destruct (decide (c :: target = sourceLang)).
      * eexists _, [_]. split; [reflexivity|]. split; [by repeat constructor|by left].
      * simpl. destruct (translate env _ s (c :: target)) as [translation|] eqn:E.
        -- eexists _, [_; _]. unfold logged. simpl. rewrite <- app_assoc.
           split; [reflexivity|]. split; [by repeat constructor|]. right. by eexists.
        -- eexists _, [_; _]. unfold logged. simpl. rewrite <- app_assoc.
           split; [reflexivity|]. split; [by repeat constructor|by left].
    + eexists _, [_]. split; [reflexivity|]. split; [by repeat constructor|done].
  - eexists _, [_]. split; [reflexivity|]. split; [by repeat constructor|].
    destruct target; [by left|done].
Qed.

Lemma guidance_quiet env lang :
  Quiet (let* errorMsg := translateText env (JStr regionGuidance) (Some lang) in
         ret [withQuickReply (ttext errorMsg) lang])
        (λ messages, ∃ text, messages = [withQuickReply text lang]
                             ∧ RenderingOf env regionGuidance lang text).
Proof.
  eapply quiet_bind; [apply translateText_quiet|].
  intros t Ht. apply quiet_ret. by exists (ttext t).
Qed.

(** C2.  When the destination extracted from a recommend-places request,
    or from a recommend-hotels request, names none of the nine northern
    provinces and not the region, the dispatcher answers with exactly one
    text message, the region guidance (as it is or as the translation
    service renders it) with the quick-reply menu, and issues no call to
    the model, the place search, the place details, the nearby hotel
    search or the web search. *)
Theorem outside_region_gets_guidance_only (env : Env) (userId s token : list N) (w : World) :
  (isRecommendPlaces s = true ∧ isNorthern env (placesDestination s) = false)
  ∨ (isRecommendPlaces s = false ∧ startsWith infoPrefix s = false
     ∧ isRecommendHotels s = true ∧ isNorthern env (hotelsDestination s) = false) →
  storeUp env (S (length (calls w))) = true →
  ∃ text lang new,
    getAIResponseWithMedia env userId (UText s) token w
    = (Ok [withQuickReply text lang], {| store := store w; calls := calls w ++ new |})
    ∧ Forall (λ c, isLookup c = false) new
    ∧ RenderingOf env regionGuidance lang text.
Proof.
  intros Hgate Hup.
  rewrite (dispatcher_start env userId (UText s) token w Hup).
  assert (Quiet
    (let* detectedLang := (let* detected := translateText env (JStr s) None in
                           ret (lang detected)) in
     if isRecommendPlaces s then recommendPlaces env userId s detectedLang
     else if startsWith infoPrefix s then placeInformation env s detectedLang
     else if isRecommendHotels s then recommendHotels env s detectedLang
     else if isWeather s then weather env s detectedLang
     else if startsWith mapPrefix s then mapOfPlace env s detectedLang
     else if decide (s = contactRequest) then contact env detectedLang
     else freeText env userId (UText s) detectedLang)
    (λ messages, ∃ text lang, messages = [withQuickReply text lang]
                              ∧ RenderingOf env regionGuidance lang text)) as Hquiet.
  { eapply quiet_bind with (P := λ _, True).
    - eapply quiet_bind; [apply translateText_quiet|]. intros t _. by apply quiet_ret.
    - intros detectedLang _.
      destruct Hgate as [[-> Hout]|(-> & -> & -> & Hout)].
      + unfold recommendPlaces. cbv zeta. rewrite Hout. cbn [negb].
        intros w0.
        destruct (guidance_quiet env detectedLang w0) as (a & new & E & Hnew & text & -> & Ht).
        exists [withQuickReply text detectedLang], new. split; [exact E|].
        split; [done|]. by exists text, detectedLang.
      + unfold recommendHotels. cbv zeta. rewrite Hout. cbn [negb].
        intros w0.
        destruct (guidance_quiet env detectedLang w0) as (a & new & E & Hnew & text & -> & Ht).
        exists [withQuickReply text detectedLang], new. split; [exact E|].
        split; [done|]. by exists text, detectedLang. }
  destruct (Hquiet {| store := store w;
                      calls := calls w ++ [LoadingStart userId 5; StoreGet userId] |})
    as (messages & new & E & Hnew & text & lang & -> & Ht).
  exists text, lang, ([LoadingStart userId 5; StoreGet userId] ++ new).
  rewrite E. simpl. rewrite <- app_assoc. split; [done|].
  split; [|done]. by repeat constructor.
Qed.

Lemma outside_region_gets_guidance_only_witness :
  ∃ text lang new,
    getAIResponseWithMedia Sample.env Sample.someone (UText (str "แนะนำที่เที่ยว กรุงเทพ"))
                           (str "token") Sample.start
    = (Ok [withQuickReply text lang],
       {| store := store Sample.start; calls := calls Sample.start ++ new |})
    ∧ Forall (λ c, isLookup c = false) new
    ∧ RenderingOf Sample.env regionGuidance lang text.
Proof.
  apply (outside_region_gets_guidance_only Sample.env Sample.someone
           (str "แนะนำที่เที่ยว กรุงเทพ") (str "token") Sample.start).
  - left. split; vm_compute; reflexivity.
  - reflexivity.
Defined.

(** ** Stickers *)

(** The answer of [translateText] does not depend on the store. *)
Lemma translateText_blind env s target w1 w2 :
  calls w1 = calls w2 →
  (translateText env (JStr s) target w1).1 = (translateText env (JStr s) target w2).1.
Proof.
  intros Hcalls.
  unfold translateText, tryCatch, bind, remote, ret. simpl. rewrite Hcalls.
  destruct (detect env _ s) as [sourceLang|]; [|reflexivity].
  destruct target as [[|c target]|]; try reflexivity.
  destruct (decide (c :: target = sourceLang)); [reflexivity|]. simpl.
  rewrite !length_app, Hcalls. by destruct (translate env _ s (c :: target)).
Qed.

(** C6.  A sticker is answered with exactly one text message, the
    greeting (as it is or as the translation service renders it) with
    the quick-reply menu, and the answer is the same whatever the stored
    chat history holds. *)
Theorem sticker_gets_greeting (env : Env) (userId token : list N) (w : World) :
  storeUp env (S (length (calls w))) = true →
  ∃ text,
    (getAIResponseWithMedia env userId (UObject (str "sticker")) token w).1
    = Ok [withQuickReply text (str "th")]
    ∧ RenderingOf env greetingText (str "th") text
    ∧ ∀ history,
        (getAIResponseWithMedia env userId (UObject (str "sticker")) token
                                {| store := history; calls := calls w |}).1
        = Ok [withQuickReply text (str "th")].
Proof.
  intros Hup.
  set (at_greeting := λ history,
         {| store := history; calls := calls w ++ [LoadingStart userId 5; StoreGet userId] |}).
  destruct (translateText_quiet env greetingText (Some (str "th")) (at_greeting (store w)))
    as (t & new & Ht & _ & Hrender).
  assert (∀ history,
            (getAIResponseWithMedia env userId (UObject (str "sticker")) token
                                    {| store := history; calls := calls w |}).1
            = Ok [withQuickReply (orElse (ttext t) greetingText) (str "th")]) as Hany.
  { intros history.
    rewrite (dispatcher_start env userId (UObject (str "sticker")) token
               {| store := history; calls := calls w |} Hup).
    unfold bind at 1. unfold ret at 1. rewrite decide_True by done.
    unfold stickerGreeting, bind. cbn -[translateText].
    pose proof (translateText_blind env greetingText (Some (str "th"))
                  (at_greeting history) (at_greeting (store w)) eq_refl) as Hblind.
    rewrite Ht in Hblind. unfold at_greeting in Hblind. cbn -[translateText] in Hblind.
    destruct (translateText env (JStr greetingText) (Some (str "th"))
                {| store := history; calls := _ |}) as [r w1].
    cbn in Hblind. by subst r. }
  exists (orElse (ttext t) greetingText). split; [|split; [|exact Hany]].
  - specialize (Hany (store w)). by destruct w.
  - destruct (ttext t); [by left|exact Hrender].
Qed.

Lemma sticker_gets_greeting_witness :
  ∃ text,
    (getAIResponseWithMedia Sample.env Sample.someone (UObject (str "sticker")) (str "token")
                            Sample.start).1
    = Ok [withQuickReply text (str "th")]
    ∧ RenderingOf Sample.env greetingText (str "th") text
    ∧ ∀ history,
        (getAIResponseWithMedia Sample.env Sample.someone (UObject (str "sticker"))
                                (str "token")
                                {| store := history; calls := calls Sample.start |}).1
        = Ok [withQuickReply text (str "th")].
Proof.
  apply (sticker_gets_greeting Sample.env Sample.someone (str "token") Sample.start).
  reflexivity.
Defined.

(** ** The first message of a user *)

#[local] Arguments translateText : simpl never.



Lemma history_window_is_ten_store_only_grows_witness :
  ∃ recent,
    [userTurn (str "one")] = recent ++ [userTurn (str "one")]
    ∧ recent `suffix_of` default [] (messages <$> store Sample.start !! Sample.someone)
    ∧ length recent
      = (length (default [] (messages <$> store Sample.start !! Sample.someone)) `min` 10)%nat.
Proof.
  destruct (history_window_is_ten_store_only_grows Sample.env Sample.someone (str "one")
              Sample.start) as [(new & Hnew & Hwindow) _].
  apply Hwindow. simpl in Hnew. rewrite <- Hnew.
  apply elem_of_cons. right. apply elem_of_cons. right. apply elem_of_cons. left.
  vm_compute. reflexivity.
Defined.

Lemma extractPlaces_rule_witness :
  removeNumeral ([49] ++ [46] ++ [32] ++ str "Doi Suthep") = str "Doi Suthep".
Proof.
  destruct (extractPlaces_rule Sample.sampleResponse) as (_ & _ & Hnumeral & _).
  apply (Hnumeral 49 [] [32] (str "Doi Suthep")).
  - reflexivity.
  - constructor.
  - repeat constructor.
  - reflexivity.
Defined.

(** ** The statements on the sample data *)

Example hotelFinder_when_nothing_resolves :
  let '(hotels, w) := getHotelsNearPlace Sample.env (str "Nowhere") Sample.start in
  (∃ found, hotels = Ok found ∧ map hname found = [str "Hotel D"; str "Hotel C"; str "Hotel A"])
  ∧ last (calls w) = Some (NearbySearch (Some (187883 # 10000)%Q) (Some (989857 # 10000)%Q)
                                        20000 (str "lodging"))
  ∧ length (calls w) = 4%nat.
Proof.
  vm_compute. split; [|split; reflexivity]. eexists. split; reflexivity.
Qed.

Example hotels_outside_region :
  ∃ text,
    (getAIResponseWithMedia Sample.env Sample.someone (UText (str "แนะนำโรงแรม ภูเก็ต"))
                            (str "token") Sample.start).1
    = Ok [withQuickReply text (str "th")]
    ∧ text = regionGuidance.
Proof. eexists. split; vm_compute; reflexivity. Qed.

(** A request for places in Chiang Mai: the model of the sample
    environment names no place, so the reply is the apology, the hotel
    carousel and the follow-up with the menu. *)
Example places_in_chiang_mai :
  ∃ messages,
    (getAIResponseWithMedia Sample.env Sample.someone (UText (str "แนะนำที่เที่ยว เชียงใหม่"))
                            (str "token") Sample.start).1 = Ok messages
    ∧ map isFlex messages = [false; true; false]
    ∧ map (λ m, bool_decide (is_Some (quickReply m))) messages = [false; false; true].
Proof. eexists. split; [vm_compute; reflexivity|]. split; vm_compute; reflexivity. Qed.

Example resolver_without_geometry :
  chooseCandidate (Some [Sample.unplaced]) = None.
Proof. reflexivity. Qed.

(** * Further properties *)

(** ** Cleaning of place names *)

Section Cleaning.

Implicit Types (s p : list N).

Lemma startsWith_spec p s : startsWith p s = true ↔ ∃ rest, s = p ++ rest.
Proof.
  revert s. induction p as [|a p IH]; intros s; simpl.
  - split; [by exists s|done].
  - destruct s as [|b s]; [split; [done|by intros [? ?]]|].
    rewrite andb_true_iff, N.eqb_eq, IH. split.
    + intros [-> [rest ->]]. by exists rest.
    + intros [rest [= -> ->]]. split; [done|by exists rest].
Qed.

Lemma includes_spec p s : includes p s = true ↔ ∃ pre post, s = pre ++ p ++ post.
Proof.
  induction s as [|c s IH].
  - change (includes p []) with (startsWith p [] || false). rewrite orb_false_r, startsWith_spec.
    split.
    + intros [rest E]. by exists [], rest.
    + intros (pre & post & E). symmetry in E. apply app_eq_nil in E as [-> E]. by exists post.
  - change (includes p (c :: s)) with (startsWith p (c :: s) || includes p s).
    rewrite orb_true_iff, IH, startsWith_spec. split.
    + intros [[rest E]|(pre & post & E)]; [by exists [], rest|].
      exists (c :: pre), post. by rewrite E.
    + intros (pre & post & E). destruct pre as [|x pre]; [left; by exists post|].
      right. injection E as -> ->. by exists pre, post.
Qed.

(** Being a substring is inherited by what contains the substring. *)
Lemma includes_infix p s pre post :
  includes p s = true → includes p (pre ++ s ++ post) = true.
Proof.
  rewrite !includes_spec. intros (a & b & ->). exists (pre ++ a), (b ++ post).
  by rewrite <- !app_assoc.
Qed.

Lemma dropWhile_idem f s : dropWhile f (dropWhile f s) = dropWhile f s.
Proof.
  destruct (dropWhile f s) as [|c r] eqn:E; [done|].
  apply dropWhile_head in E. simpl. by rewrite E.
Qed.

Lemma trimEnd_prefix s : ∃ rest, s = trimEnd s ++ rest.
Proof.
  unfold trimEnd. exists (rev (takeWhile isWhite (rev s))).
  rewrite <- rev_app_distr, takeWhile_dropWhile. by rewrite rev_involutive.
Qed.

Lemma trim_infix s : ∃ pre post, s = pre ++ trim s ++ post.
Proof.
  unfold trim. destruct (trimEnd_prefix (trimStart s)) as [post E].
  exists (takeWhile isWhite s), post. rewrite <- E. unfold trimStart.
  by rewrite takeWhile_dropWhile.
Qed.

Lemma trim_idem s : trim (trim s) = trim s.
Proof.
  unfold trim at 2 3. set (a := trimStart s).
  assert (trimStart a = a) as Ha by apply dropWhile_idem.
  destruct (trimEnd a) as [|c r] eqn:E; [done|].
  assert (isWhite c = false) as Hc.
  { destruct (trimEnd_prefix a) as [rest Hrest]. rewrite E in Hrest.
    unfold trimStart in Ha. rewrite Hrest in Ha. simpl in Ha.
    destruct (isWhite c) eqn:Hw; [|done]. exfalso.
    pose proof (takeWhile_dropWhile isWhite (r ++ rest)) as Hlen.
    apply (f_equal length) in Ha. apply (f_equal length) in Hlen.
    rewrite length_app in Hlen. simpl in Ha. lia. }
  unfold trim, trimStart. simpl. rewrite Hc.
  rewrite <- E. unfold trimEnd. rewrite rev_involutive, dropWhile_idem. done.
Qed.

Lemma splitHead_cons sep c s :
  splitHead sep (c :: s) = if c =? sep then [] else c :: splitHead sep s.
Proof.
  unfold splitHead. simpl. destruct (c =? sep); [done|].
  pose proof (split_nonempty sep s). by destruct (split sep s).
Qed.

Lemma splitHead_prefix sep s : ∃ rest, s = splitHead sep s ++ rest.
Proof.
  induction s as [|c s [rest IH]]; [by exists []|]. rewrite splitHead_cons.
  destruct (c =? sep); [by exists (c :: s)|]. exists rest. simpl. by rewrite <- IH.
Qed.

Lemma splitHead_free sep s : sep ∉ splitHead sep s.
Proof.
  induction s as [|c s IH]; [by intros ?%elem_of_nil|]. rewrite splitHead_cons.
  destruct (c =? sep) eqn:E; [by intros ?%elem_of_nil|].
  apply N.eqb_neq in E. intros [->|?]%elem_of_cons; done.
Qed.

Lemma splitHead_id sep s : sep ∉ s → splitHead sep s = s.
Proof.
  induction s as [|c s IH]; [done|]. intros Hs. rewrite splitHead_cons.
  destruct (c =? sep) eqn:E.
  - apply N.eqb_eq in E as ->. exfalso. apply Hs. by left.
  - rewrite IH; [done|]. intros ?. apply Hs. by right.
Qed.

Ltac split_unit c :=
  destruct c as [|c]; [try reflexivity|];
  do 6 (try (destruct c as [c|c|]; try reflexivity)).

Lemma removeBold_cons c s :
  removeBold (c :: s)
  = match s with
    | d :: r => if (c =? 42) && (d =? 42) then removeBold r else c :: removeBold s
    | [] => [c]
    end.
Proof.
  destruct s as [|d r].
  - split_unit c.
  - split_unit c. split_unit d.
Qed.

Lemma startsWith_marker c t :
  startsWith [42; 42] (c :: t)
  = (c =? 42) && match t with d :: _ => d =? 42 | [] => false end.
Proof.
  destruct t as [|d t]; cbn [startsWith]; rewrite (N.eqb_sym 42 c); [done|].
  by rewrite (N.eqb_sym 42 d), andb_true_r.
Qed.

(** What [removeBold] leaves holds the marker nowhere. *)
Lemma removeBold_free n s :
  (length s ≤ n)%nat →
  includes [42; 42] (removeBold s) = false
  ∧ (∀ c, c ≠ 42 → head s = Some c → head (removeBold s) = Some c).
Proof.
  revert s. induction n as [|n IH]; intros s Hn.
  - destruct s; [|simpl in Hn; lia]. split; [done|]. by intros c _ [=].
  - destruct s as [|c s]; [split; [done|by intros c _ [=]]|].
    rewrite removeBold_cons. destruct s as [|d r].
    + split; [|done].
      change (includes [42; 42] [c]) with (startsWith [42; 42] [c] || false).
      by rewrite startsWith_marker, andb_false_r.
    + simpl in Hn. destruct ((c =? 42) && (d =? 42)) eqn:E.
      * apply andb_true_iff in E as [->%N.eqb_eq ->%N.eqb_eq].
        destruct (IH r) as [Hfree _]; [lia|]. split; [done|].
        by intros c Hc [= <-].
      * destruct (IH (d :: r)) as [Hfree Hhead]; [simpl; lia|]. split; [|done].
        change (includes [42; 42] (c :: removeBold (d :: r)))
          with (startsWith [42; 42] (c :: removeBold (d :: r))
                || includes [42; 42] (removeBold (d :: r))).
        rewrite Hfree, orb_false_r, startsWith_marker.
        destruct (c =? 42) eqn:Hc; [|done].
        simpl in E. apply N.eqb_neq in E.
        specialize (Hhead d E eq_refl).
        destruct (removeBold (d :: r)) as [|x t]; [done|].
        injection Hhead as ->. by apply N.eqb_neq.
Qed.

Lemma removeBold_id s : includes [42; 42] s = false → removeBold s = s.
Proof.
  induction s as [|c s IH]; [done|]. intros Hs.
  change (includes [42; 42] (c :: s))
    with (startsWith [42; 42] (c :: s) || includes [42; 42] s) in Hs.
  apply orb_false_iff in Hs as [Hstart Hrest]. rewrite removeBold_cons.
  rewrite startsWith_marker in Hstart.
  destruct s as [|d r]; [done|]. rewrite Hstart. by rewrite IH.
Qed.

End Cleaning.


(** ** Union without repetition

    [arrayUnion] and [unique] are the same fold. *)

Section AddNew.

Context {A : Type} `{EqDecision A}.

Local Abbreviation addNew :=
  (λ (acc : list A) (e : A), if decide (e ∈ acc) then acc else acc ++ [e]).

Lemma addNew_prefix acc l : acc `prefix_of` foldl addNew acc l.
Proof.
  revert acc. induction l as [|e l IH]; intros acc; simpl; [done|].
  destruct (decide (e ∈ acc)); [apply IH|]. etrans; [|apply IH]. by apply prefix_app_r.
Qed.

Lemma addNew_elem acc l x : x ∈ foldl addNew acc l ↔ x ∈ acc ∨ x ∈ l.
Proof.
  revert acc. induction l as [|e l IH]; intros acc; simpl.
  - split; [by left|]. intros [?|?%elem_of_nil]; done.
  - rewrite IH. destruct (decide (e ∈ acc)) as [He|He].
    + rewrite elem_of_cons. split; [intros [?|?]; auto|]. intros [?|[->|?]]; auto.
    + rewrite elem_of_app, list_elem_of_singleton, elem_of_cons. tauto.
Qed.

Lemma addNew_NoDup acc l : NoDup acc → NoDup (foldl addNew acc l).
Proof.
  revert acc. induction l as [|e l IH]; intros acc Hacc; simpl; [done|].
  apply IH. destruct (decide (e ∈ acc)); [done|].
  apply NoDup_app. split; [done|]. split; [|apply NoDup_singleton].
  intros x Hx ->%list_elem_of_singleton. done.
Qed.

Lemma addNew_known acc l : (∀ x, x ∈ l → x ∈ acc) → foldl addNew acc l = acc.
Proof.
  induction l as [|e l IH]; intros Hl; simpl; [done|].
  rewrite decide_True by (apply Hl; by left). apply IH. intros x Hx. apply Hl. by right.
Qed.

Lemma addNew_fresh acc l :
  NoDup l → (∀ x, x ∈ l → x ∉ acc) → foldl addNew acc l = acc ++ l.
Proof.
  revert acc. induction l as [|e l IH]; intros acc Hl Hacc; simpl; [by rewrite app_nil_r|].
  apply NoDup_cons in Hl as [He Hl].
  rewrite decide_False by (apply Hacc; by left). rewrite IH; [by rewrite <- app_assoc|done|].
  intros x Hx [Hin| ->%list_elem_of_singleton]%elem_of_app; [|done].
  eapply Hacc; [by right|done].
Qed.

Lemma addNew_sublist acc l :
  ∃ added, foldl addNew acc l = acc ++ added ∧ added `sublist_of` l.
Proof.
  revert acc. induction l as [|e l IH]; intros acc; simpl.
  - exists []. by rewrite app_nil_r.
  - destruct (decide (e ∈ acc)).
    + destruct (IH acc) as (added & -> & Hsub). exists added. split; [done|].
      by apply sublist_cons.
    + destruct (IH (acc ++ [e])) as (added & -> & Hsub). exists (e :: added).
      rewrite <- app_assoc. split; [done|]. by apply sublist_skip.
Qed.

(** An element that is added stands behind the elements that were known
    or came before its first occurrence, and only those. *)
Lemma addNew_first acc l pre x post :
  foldl addNew acc l = pre ++ x :: post → (length acc ≤ length pre)%nat →
  ∃ pre' post',
    l = pre' ++ x :: post' ∧ ¬ (x ∈ pre') ∧ ¬ (x ∈ acc) ∧ ∀ y, y ∈ pre ↔ y ∈ acc ∨ y ∈ pre'.
Proof.
  revert acc. induction l as [|e l IH]; intros acc Hfold Hlen; simpl in Hfold.
  - apply (f_equal length) in Hfold. rewrite length_app in Hfold. simpl in Hfold. lia.
  - destruct (decide (e ∈ acc)) as [He|He].
    + destruct (IH acc Hfold Hlen) as (pre' & post' & -> & Hx & Hacc & Hpre).
      exists (e :: pre'), post'. split; [done|]. split; [|split; [done|]].
      * intros [->|?]%elem_of_cons; done.
      * intros y. rewrite Hpre, elem_of_cons. split; [tauto|].
        intros [?|[->|?]]; auto.
    + destruct (decide (length (acc ++ [e]) ≤ length pre)%nat) as [Hfits|Hfull].
      * destruct (IH (acc ++ [e]) Hfold Hfits) as (pre' & post' & -> & Hx & Hacc & Hpre).
        rewrite elem_of_app, list_elem_of_singleton in Hacc.
        exists (e :: pre'), post'. split; [done|]. split; [|split; [tauto|]].
        -- intros [->|?]%elem_of_cons; tauto.
        -- intros y. rewrite Hpre, elem_of_app, list_elem_of_singleton, elem_of_cons. tauto.
      * rewrite length_app in Hfull. simpl in Hfull.
        destruct (addNew_prefix (acc ++ [e]) l) as [rest Hrest].
        rewrite Hrest, <- !app_assoc in Hfold. simpl in Hfold.
        apply app_inj_1 in Hfold as [<- [= <- _]]; [|lia].
        exists [], l. split; [done|]. split; [by intros ?%elem_of_nil|]. split; [done|].
        intros y. split; [by left|]. by intros [?|?%elem_of_nil].
Qed.

Lemma addNew_length acc l : (length (foldl addNew acc l) ≤ length acc + length l)%nat.
Proof.
  revert acc. induction l as [|e l IH]; intros acc; simpl; [lia|].
  destruct (decide (e ∈ acc)).
  - specialize (IH acc). lia.
  - specialize (IH (acc ++ [e])). rewrite length_app in IH. simpl in IH. lia.
Qed.

End AddNew.

(** ** The loading indicator and the reply transport *)

Section Seconds.

Open Scope Q_scope.

Lemma truncated_integer (x : Q) (k : Z) :
  x == inject_Z k → Z.quot (Qnum x) (Zpos (Qden x)) = k.
Proof.
  unfold Qeq. simpl. rewrite Z.mul_1_r. intros ->. by apply Z.quot_mul.
Qed.

(** The test [seconds % 5 !== 0] fails exactly on the multiples of 5. *)
Lemma remainder_multiple (q : Q) :
  isZero (remainder q 5) = true ↔ ∃ k : Z, q == inject_Z (5 * k).
Proof.
  unfold isZero, remainder. cbv zeta. rewrite Qeq_bool_iff. split.
  - intros H. eexists. rewrite inject_Z_mult.
    apply Qplus_inj_r with (z := - (5 * inject_Z (Qnum (q / 5) ÷ Z.pos (Qden (q / 5))))).
    rewrite Qplus_opp_r. exact H.
  - intros [k Hk].
    rewrite (truncated_integer (q / 5) k).
    + rewrite Hk, inject_Z_mult. change (inject_Z 5) with 5. ring.
    + rewrite Hk, inject_Z_mult. change (inject_Z 5) with 5. field.
Qed.

End Seconds.

(** X2.  Whatever number of seconds it is asked for, negative and
    fractional ones included, or none, the loading animation requests 5 to
    60 seconds in a multiple of 5: the number asked for when that is one,
    and 5 in every other case; a failure of the request is answered by
    [false], never raised. *)
Theorem loading_seconds_are_valid (env : Env) (userId : list N) (seconds : option Q)
    (w : World) :
  ∃ sent,
    startLoadingAnimation env userId seconds w
    = (Ok (loading env (length (calls w))), logged (LoadingStart userId sent) w)
    ∧ (5 <= sent)%Q ∧ (sent <= 60)%Q ∧ (∃ k : Z, sent == inject_Z (5 * k))%Q
    ∧ (∀ q, seconds = Some q →
         (5 <= q)%Q → (q <= 60)%Q → (∃ k : Z, q == inject_Z (5 * k))%Q → sent = q)
    ∧ (∀ q, seconds = Some q →
         ¬ ((5 <= q)%Q ∧ (q <= 60)%Q ∧ ∃ k : Z, (q == inject_Z (5 * k))%Q) → sent = 5%Q)
    ∧ (seconds = None → sent = 5%Q).
Proof.
  exists (loadingSeconds seconds). split.
  { unfold startLoadingAnimation, tryCatch, bind, remote, ret. cbv zeta.
    by destruct (loading env _). }
  assert (∃ k : Z, (5 == inject_Z (5 * k))%Q) as Hfive by (by exists 1%Z).
  assert ((5 <= 5)%Q ∧ (5 <= 60)%Q) as [Hlow5 Hhigh5] by (split; discriminate).
  destruct seconds as [q|].
  2: { change (loadingSeconds None) with 5%Q.
       split; [done|]. split; [done|]. split; [done|]. split; [done|]. split; done. }
  unfold loadingSeconds. simpl.
  destruct (Qle_bool 5 q) eqn:Hlow; simpl.
  2: { split; [done|]. split; [done|]. split; [done|].
       split; [|split; [|done]]; intros q' [= <-]; [|done].
       intros H. apply Qle_bool_iff in H. congruence. }
  destruct (Qle_bool q 60) eqn:Hhigh; simpl.
  2: { split; [done|]. split; [done|]. split; [done|].
       split; [|split; [|done]]; intros q' [= <-]; [|done].
       intros _ H. apply Qle_bool_iff in H. congruence. }
  apply Qle_bool_iff in Hlow, Hhigh.
  destruct (isZero (remainder q 5)) eqn:Hmod; simpl.
  - apply remainder_multiple in Hmod.
    split; [done|]. split; [done|]. split; [done|].
    split; [|split; [|done]]; intros q' [= <-]; [done|]. intros []. done.
  - split; [done|]. split; [done|]. split; [done|].
    split; [|split; [|done]]; intros q' [= <-]; [|done].
    intros _ _ H. apply remainder_multiple in H. congruence.
Qed.

(** The animation on sample requests: ten seconds are requested as they
    are, seven and a half, seventy and minus five are replaced by 5. *)
Example loading_seconds_on_samples :
  map loadingSeconds [Some 10%Q; Some (15 # 2)%Q; Some 70%Q; Some (-5)%Q; None]
  = [10%Q; 5%Q; 5%Q; 5%Q; 5%Q].
Proof. reflexivity. Qed.

(** X3.  [sendToLine] posts nothing when one of the messages is a text
    message with an empty text: it raises before any request; and when it
    returns, one reply request carrying all the messages has been issued
    and none of them is such a message. *)
Theorem sendToLine_checks_before_posting (env : Env) (token : list N)
    (messages : list Message) (w : World) :
  (Exists (λ msg, body msg = Text []) messages →
   sendToLine env token messages w = (Throw, w))
  ∧ (∀ w', sendToLine env token messages w = (Ok (), w') →
       w' = logged (Reply token messages) w
       ∧ Forall (λ msg, body msg ≠ Text []) messages).
Proof.
  unfold sendToLine. split.
  - intros Hbad. destruct (forallb validMessage messages) eqn:E; [|done]. exfalso.
    apply Exists_exists in Hbad as (msg & Hin & Hmsg).
    rewrite forallb_forall in E. apply list_elem_of_In in Hin.
    specialize (E msg Hin). unfold validMessage in E. by rewrite Hmsg in E.
  - intros w'. destruct (forallb validMessage messages) eqn:E; [|done].
    unfold remote. destruct (lineReply env _); intros [= <-]. split; [done|].
    apply Forall_forall. intros msg Hin Hmsg. rewrite forallb_forall in E.
    apply list_elem_of_In in Hin. specialize (E msg Hin).
    unfold validMessage in E. by rewrite Hmsg in E.
Qed.

Lemma sendToLine_checks_before_posting_witness :
  sendToLine Sample.env (str "token") [plain (Text [])] Sample.start = (Throw, Sample.start).
Proof.
  destruct (sendToLine_checks_before_posting Sample.env (str "token") [plain (Text [])]
              Sample.start) as [Hbad _].
  apply Hbad. constructor. reflexivity.
Defined.

(** ** The Language Normalizer on strings *)

(** X4.  A failure of the translation services is not raised: when the
    detection fails, and when the translation fails after a detection
    that found another language than the target, the text comes back as
    it was, tagged as Thai; when both answer, the translation comes back
    tagged with the target. *)
Theorem translateText_falls_back_to_thai (env : Env) (s : list N) (w : World) :
  let n := length (calls w) in
  (∀ target, detect env n s = None →
     translateText env (JStr s) target w
     = (Ok {| ttext := s; lang := str "th" |}, logged (Detect s) w))
  ∧ (∀ source target answer,
       detect env n s = Some source → target ≠ [] → target ≠ source →
       translate env (S n) s target = answer →
       translateText env (JStr s) (Some target) w
       = (Ok (match answer with
              | Some translation => {| ttext := translation; lang := target |}
              | None => {| ttext := s; lang := str "th" |}
              end),
          logged (Translate s target) (logged (Detect s) w))).
Proof.
  cbv zeta. split.
  - intros target Hdetect. unfold translateText, tryCatch, bind, remote. by rewrite Hdetect.
  - intros source target answer Hdetect Hempty Hother Htranslate.
    unfold translateText, tryCatch, bind, remote. rewrite Hdetect.
    destruct target as [|c target]; [done|]. rewrite decide_False by done.
    rewrite logged_instant, Htranslate. by destruct answer.
Qed.

Lemma translateText_falls_back_to_thai_witness :
  translateText Offline.env (JStr (str "hello")) (Some (str "en")) Sample.start
  = (Ok {| ttext := str "hello"; lang := str "th" |}, logged (Detect (str "hello")) Sample.start).
Proof.
  destruct (translateText_falls_back_to_thai Offline.env (str "hello") Sample.start)
    as [Hdetect _].
  apply Hdetect. reflexivity.
Defined.

(** ** The completion wrapper *)

Lemma outage_nonempty : outage ≠ [].
Proof. intros H. vm_compute in H. discriminate H. Qed.

Lemma trouble_nonempty : trouble ≠ [].
Proof. intros H. vm_compute in H. discriminate H. Qed.

Lemma orElse_nonempty x d : d ≠ [] → orElse x d ≠ [].
Proof. by destruct x. Qed.

(** The three ways a call of [getAIResponse] ends. *)
Lemma getAIResponse_cases env userId userMessage w :
  let contents := recentHistory (store w !! userId) [] ++ [userTurn userMessage] in
  (getAIResponse env userId userMessage [] w = (Ok outage, logged Token w)
   ∧ (accessToken env (length (calls w)) = None
      ∨ accessToken env (length (calls w)) = Some []))
  ∨ (∃ w', getAIResponse env userId userMessage [] w = (Ok trouble, w')
           ∧ store w' = store w ∧ is_Some (accessToken env (length (calls w))))
  ∨ (∃ answer time log,
       answer ≠ [] ∧ is_Some (accessToken env (length (calls w)))
       ∧ getAIResponse env userId userMessage [] w
         = (Ok answer,
            {| store := <[userId := {| messages :=
                                         arrayUnion (storedTurns w userId)
                                           (contents ++ [{| role := model; text := answer |}]);
                                       lastUpdated := time |}]> (store w);
               calls := log |})).
Proof.
  cbv zeta. unfold outage, trouble, getAIResponse, bind. rewrite getAccessToken_run.
  destruct (accessToken env (length (calls w))) as [[|t ts]|] eqn:Htoken;
    [left; split; [reflexivity|by right]| |left; split; [reflexivity|by left]].
  right. unfold tryCatch, bind, getDoc, remote, setDocMerge, ret. simpl.
  destruct (storeUp env _); simpl; [|left; by eexists].
  destruct (complete env _ _) as [response|]; simpl; [|left; by eexists].
  destruct (storeUp env _); simpl; [|left; by eexists].
  right. exists (orElse (default [] response) (str "ขออภัย ฉันไม่สามารถให้ข้อมูลได้")).
  eexists _, _. split; [|split; [done|reflexivity]].
  apply orElse_nonempty. intros H. vm_compute in H. discriminate H.
Qed.

(** X5.  [getAIResponse] never raises and never answers with an empty
    text; without an access token it answers with the outage text after
    the token request alone, the store and the model left alone. *)
Theorem getAIResponse_always_answers (env : Env) (userId userMessage : list N) (w : World) :
  ∃ answer w',
    getAIResponse env userId userMessage [] w = (Ok answer, w')
    ∧ answer ≠ []
    ∧ (accessToken env (length (calls w)) = None →
       answer = outage ∧ w' = logged Token w).
Proof.
  destruct (getAIResponse_cases env userId userMessage w)
    as [[E Htoken]|[(w' & E & _ & Htoken)|(answer & time & log & Hne & Htoken & E)]].
  - exists outage, (logged Token w). split; [exact E|].
    split; [apply outage_nonempty|]. intros _. split; reflexivity.
  - exists trouble, w'. split; [exact E|]. split; [apply trouble_nonempty|].
    intros Hnone. rewrite Hnone in Htoken. by destruct Htoken.
  - eexists answer, _. split; [exact E|]. split; [exact Hne|].
    intros Hnone. rewrite Hnone in Htoken. by destruct Htoken.
Qed.

Lemma getAIResponse_always_answers_witness :
  ∃ answer w',
    getAIResponse Offline.env Sample.someone (str "one") [] Sample.start = (Ok answer, w')
    ∧ answer = outage ∧ w' = logged Token Sample.start.
Proof.
  destruct (getAIResponse_always_answers Offline.env Sample.someone (str "one") Sample.start)
    as (answer & w' & E & _ & Hout).
  exists answer, w'. split; [exact E|]. apply Hout. reflexivity.
Defined.

Lemma recentHistory_known w userId x :
  x ∈ recentHistory (store w !! userId) [] → x ∈ storedTurns w userId.
Proof.
  destruct (recentHistory_window (store w !! userId)) as [[pre Hsuffix] _].
  unfold storedTurns. rewrite Hsuffix. intros ?. apply elem_of_app. by right.
Qed.

Lemma storedTurns_insert st log u d :
  storedTurns {| store := <[u := d]> st; calls := log |} u = messages d.
Proof. unfold storedTurns. simpl. by rewrite lookup_insert_eq. Qed.

(** X6.  An exchange the document already holds is not recorded again:
    when the user turn of the question and the model turn of the answer
    are both stored, the call leaves the stored turns as they are. *)
Theorem repeated_exchange_adds_nothing (env : Env) (userId userMessage : list N)
    (w w' : World) (answer : list N) :
  getAIResponse env userId userMessage [] w = (Ok answer, w') →
  userTurn userMessage ∈ storedTurns w userId →
  {| role := model; text := answer |} ∈ storedTurns w userId →
  storedTurns w' userId = storedTurns w userId.
Proof.
  intros Hrun Huser Hmodel.
  destruct (getAIResponse_cases env userId userMessage w)
    as [[E _]|[(w1 & E & Hstore & _)|(answer' & time & log & Hne & _ & E)]];
    rewrite E in Hrun; injection Hrun as <- <-.
  - done.
  - unfold storedTurns. by rewrite Hstore.
  - rewrite storedTurns_insert. simpl.
    apply addNew_known. intros x [[Hx| ->%list_elem_of_singleton]%elem_of_app
                                  | ->%list_elem_of_singleton]%elem_of_app; [|done..].
    by apply recentHistory_known.
Qed.

Lemma repeated_exchange_adds_nothing_witness :
  let once := (getAIResponse Sample.env Sample.someone (str "one") [] Sample.start).2 in
  ∃ answer twice,
    getAIResponse Sample.env Sample.someone (str "one") [] once = (Ok answer, twice)
    ∧ storedTurns twice Sample.someone = storedTurns once Sample.someone
    ∧ length (storedTurns once Sample.someone) = 2%nat.
Proof.
  cbv zeta. eexists _, _. split; [vm_compute; reflexivity|]. split; [|vm_compute; reflexivity].
  eapply (repeated_exchange_adds_nothing Sample.env Sample.someone (str "one")).
  - vm_compute. reflexivity.
  - apply (@bool_decide_unpack _ (list_elem_of_dec _ _)). vm_compute. exact I.
  - apply (@bool_decide_unpack _ (list_elem_of_dec _ _)). vm_compute. exact I.
Defined.

(** X7.  A call of [getAIResponse] for a user leaves the documents of
    all other users as they are, adds at most two turns to the user's
    own, and keeps documents free of repeated turns. *)
Theorem getAIResponse_store_invariants (env : Env) (userId userMessage : list N) (w : World) :
  let w' := (getAIResponse env userId userMessage [] w).2 in
  (∀ u, u ≠ userId → store w' !! u = store w !! u)
  ∧ (length (storedTurns w' userId) ≤ length (storedTurns w userId) + 2)%nat
  ∧ (Deduplicated w → Deduplicated w').
Proof.
  cbv zeta.
  destruct (getAIResponse_cases env userId userMessage w)
    as [[E _]|[(w1 & E & Hstore & _)|(answer & time & log & Hne & _ & E)]]; rewrite E; simpl.
  - unfold storedTurns, Deduplicated. simpl. split; [done|]. split; [lia|done].
  - unfold storedTurns, Deduplicated. rewrite Hstore. split; [done|]. split; [lia|done].
  - split; [intros u Hu; by rewrite lookup_insert_ne|].
    assert (arrayUnion (storedTurns w userId)
              ((recentHistory (store w !! userId) [] ++ [userTurn userMessage])
               ++ [{| role := model; text := answer |}])
            = arrayUnion (storedTurns w userId)
                [userTurn userMessage; {| role := model; text := answer |}]) as Hunion.
    { unfold arrayUnion. rewrite <- app_assoc, foldl_app.
      rewrite (addNew_known (storedTurns w userId) (recentHistory (store w !! userId) []));
        [reflexivity|]. intros x. apply recentHistory_known. }
    split.
    + rewrite storedTurns_insert. simpl. rewrite Hunion.
      unfold arrayUnion. etrans; [apply addNew_length|]. simpl. lia.
    + intros Hdedup u d. simpl. destruct (decide (userId = u)) as [<-|Hu].
      * rewrite lookup_insert_eq. intros [= <-]. simpl. apply addNew_NoDup.
        unfold storedTurns. destruct (store w !! userId) as [d0|] eqn:Hd; simpl.
        -- by eapply Hdedup.
        -- constructor.
      * rewrite lookup_insert_ne by done. apply Hdedup.
Qed.

Lemma getAIResponse_store_invariants_witness :
  Deduplicated (getAIResponse Sample.env Sample.someone (str "one") [] Sample.start).2.
Proof.
  destruct (getAIResponse_store_invariants Sample.env Sample.someone (str "one") Sample.start)
    as (_ & _ & Hdedup).
  apply Hdedup. intros u d Hd. simpl in Hd. by rewrite lookup_empty in Hd.
Defined.

(** ** Who writes to the store *)

Section StoreRules.

Context {A B : Type}.
Implicit Types (m : M A) (k : A → M B).

Lemma keeps_ret (a : A) : KeepsStore (ret a).
Proof. by intros w. Qed.

Lemma keeps_throw : KeepsStore (@throw A).
Proof. by intros w. Qed.

Lemma keeps_bind m k : KeepsStore m → (∀ a, KeepsStore (k a)) → KeepsStore (bind m k).
Proof.
  intros Hm Hk w. unfold bind. specialize (Hm w). destruct (m w) as [[a|] w1]; [|done].
  simpl in Hm. rewrite <- Hm. apply Hk.
Qed.

Lemma keeps_tryCatch (m h : M A) : KeepsStore m → KeepsStore h → KeepsStore (tryCatch m h).
Proof.
  intros Hm Hh w. unfold tryCatch. specialize (Hm w). destruct (m w) as [[a|] w1]; [done|].
  simpl in Hm. rewrite <- Hm. apply Hh.
Qed.

Lemma keeps_remote c (answer : nat → option A) : KeepsStore (remote c answer).
Proof. intros w. unfold remote. by destruct (answer _). Qed.

Lemma touches_keeps u m : KeepsStore m → TouchesOnly u m.
Proof. intros Hm w u' _. by rewrite Hm. Qed.

Lemma touches_bind u m k :
  TouchesOnly u m → (∀ a, TouchesOnly u (k a)) → TouchesOnly u (bind m k).
Proof.
  intros Hm Hk w u' Hu. unfold bind. specialize (Hm w u' Hu).
  destruct (m w) as [[a|] w1]; [|done]. simpl in Hm. rewrite <- Hm. by apply Hk.
Qed.

Lemma touches_tryCatch u (m h : M A) :
  TouchesOnly u m → TouchesOnly u h → TouchesOnly u (tryCatch m h).
Proof.
  intros Hm Hh w u' Hu. unfold tryCatch. specialize (Hm w u' Hu).
  destruct (m w) as [[a|] w1]; [done|]. simpl in Hm. rewrite <- Hm. by apply Hh.
Qed.

End StoreRules.

Lemma keeps_mapM {A B} (f : A → M B) l : (∀ x, KeepsStore (f x)) → KeepsStore (mapM f l).
Proof.
  intros Hf. induction l as [|x l IH]; simpl; [apply keeps_ret|].
  apply keeps_bind; [done|]. intros y. apply keeps_bind; [done|]. intros ys. apply keeps_ret.
Qed.

Lemma keeps_instant : KeepsStore instant.
Proof. by intros w. Qed.

Lemma keeps_getDoc env userId : KeepsStore (getDoc env userId).
Proof. intros w. unfold getDoc. by destruct (storeUp env _). Qed.

Ltac keeps_step :=
  lazymatch goal with
  | |- KeepsStore (ret _) => apply keeps_ret
  | |- KeepsStore throw => apply keeps_throw
  | |- KeepsStore (bind _ _) => apply keeps_bind; [|intros ?]
  | |- KeepsStore (tryCatch _ _) => apply keeps_tryCatch
  | |- KeepsStore (remote _ _) => apply keeps_remote
  | |- KeepsStore (mapM _ _) => apply keeps_mapM; intros ?
  | |- KeepsStore instant => apply keeps_instant
  | |- KeepsStore (getDoc _ _) => apply keeps_getDoc
  | |- KeepsStore (if ?b then _ else _) => destruct b
  | |- KeepsStore (match ?x with _ => _ end) => destruct x
  | |- KeepsStore (let _ := _ in _) => cbv zeta
  end.

Section StoreOfWrappers.

Context (env : Env).

Lemma translateText_keeps s target : KeepsStore (translateText env (JStr s) target).
Proof. unfold translateText. repeat keeps_step. Qed.

Lemma getLocationFromGooglePlaces_keeps placeName type :
  KeepsStore (getLocationFromGooglePlaces env placeName type).
Proof. unfold getLocationFromGooglePlaces. repeat keeps_step. Qed.

Lemma getPlaceDetails_keeps placeId : KeepsStore (getPlaceDetails env placeId).
Proof. unfold getPlaceDetails. repeat keeps_step. Qed.

Lemma searchPlaceWithCustomSearch_keeps placeName context :
  KeepsStore (searchPlaceWithCustomSearch env placeName context).
Proof. unfold searchPlaceWithCustomSearch. repeat keeps_step. Qed.

Lemma getHotelsNearPlace_keeps placeName : KeepsStore (getHotelsNearPlace env placeName).
Proof.
  unfold getHotelsNearPlace, searchLocationOf.
  repeat first [apply getLocationFromGooglePlaces_keeps | keeps_step].
Qed.

Lemma startLoadingAnimation_keeps userId seconds :
  KeepsStore (startLoadingAnimation env userId seconds).
Proof. unfold startLoadingAnimation. repeat keeps_step. Qed.

Lemma sendToLine_keeps token messages : KeepsStore (sendToLine env token messages).
Proof. unfold sendToLine. repeat keeps_step. Qed.

Lemma createRecommendationCarousel_keeps places :
  KeepsStore (createRecommendationCarousel env places).
Proof.
  unfold createRecommendationCarousel.
  repeat first [apply getLocationFromGooglePlaces_keeps | keeps_step].
Qed.

Lemma createHotelRecommendationCarousel_keeps hotels :
  KeepsStore (createHotelRecommendationCarousel env hotels).
Proof. unfold createHotelRecommendationCarousel. repeat keeps_step. Qed.

Lemma sourceNote_keeps : KeepsStore (sourceNote env).
Proof. unfold sourceNote. repeat keeps_step. Qed.

Lemma searchMessageFor_keeps {A} (searchResults : list A) heading results lang :
  KeepsStore (searchMessageFor env searchResults heading results lang).
Proof.
  unfold searchMessageFor. destruct searchResults; [apply keeps_ret|].
  keeps_step; [apply translateText_keeps|apply keeps_ret].
Qed.

Lemma resolvePlaces_keeps places : KeepsStore (resolvePlaces env places).
Proof.
  unfold resolvePlaces.
  repeat first [apply getLocationFromGooglePlaces_keeps
               | apply searchPlaceWithCustomSearch_keeps | keeps_step].
Qed.

Lemma getAIResponse_touches userId userMessage :
  TouchesOnly userId (getAIResponse env userId userMessage []).
Proof.
  intros w u Hu.
  destruct (getAIResponse_cases env userId userMessage w)
    as [[E _]|[(w1 & E & Hstore & _)|(answer & time & log & _ & _ & E)]]; rewrite E; simpl.
  - done.
  - by rewrite Hstore.
  - by rewrite lookup_insert_ne.
Qed.

End StoreOfWrappers.

Create HintDb keeps discriminated.
#[export] Hint Resolve translateText_keeps getLocationFromGooglePlaces_keeps
  getPlaceDetails_keeps searchPlaceWithCustomSearch_keeps getHotelsNearPlace_keeps
  startLoadingAnimation_keeps sendToLine_keeps createRecommendationCarousel_keeps
  createHotelRecommendationCarousel_keeps sourceNote_keeps searchMessageFor_keeps
  resolvePlaces_keeps keeps_getDoc : keeps.

Ltac keeps := repeat first [ solve [auto with keeps] | keeps_step ].

Ltac touches_step :=
  lazymatch goal with
  | |- TouchesOnly _ (getAIResponse _ _ _ []) => apply getAIResponse_touches
  | |- TouchesOnly _ (bind _ _) => apply touches_bind; [|intros ?]
  | |- TouchesOnly _ (tryCatch _ _) => apply touches_tryCatch
  | |- TouchesOnly _ (if ?b then _ else _) => destruct b
  | |- TouchesOnly _ (match ?x with _ => _ end) => destruct x
  | |- TouchesOnly _ (let _ := _ in _) => cbv zeta
  end.

Ltac touches := repeat first [ solve [apply touches_keeps; keeps] | touches_step ].

Section StoreOfDispatcher.

Context (env : Env).

Lemma placeInformation_keeps s lang : KeepsStore (placeInformation env s lang).
Proof. unfold placeInformation. keeps. Qed.

Lemma recommendHotels_keeps s lang : KeepsStore (recommendHotels env s lang).
Proof. unfold recommendHotels. keeps. Qed.

Lemma weather_keeps s lang : KeepsStore (weather env s lang).
Proof. unfold weather. keeps. Qed.

Lemma mapOfPlace_keeps s lang : KeepsStore (mapOfPlace env s lang).
Proof. unfold mapOfPlace. keeps. Qed.

Lemma contact_keeps lang : KeepsStore (contact env lang).
Proof. unfold contact. keeps. Qed.

Lemma stickerGreeting_keeps lang : KeepsStore (stickerGreeting env lang).
Proof. unfold stickerGreeting. keeps. Qed.

Lemma recommendPlaces_touches userId s lang :
  TouchesOnly userId (recommendPlaces env userId s lang).
Proof. unfold recommendPlaces. touches. Qed.

Lemma freeText_touches userId userMessage lang :
  TouchesOnly userId (freeText env userId userMessage lang).
Proof. unfold freeText. touches. Qed.

Lemma dispatcher_touches userId userMessage token :
  TouchesOnly userId (getAIResponseWithMedia env userId userMessage token).
Proof.
  unfold getAIResponseWithMedia.
  apply touches_bind; [apply touches_keeps; keeps|intros _].
  apply touches_bind; [apply touches_keeps; keeps|intros _]. cbv zeta.
  apply touches_bind; [apply touches_keeps; destruct userMessage; keeps|intros lang].
  destruct userMessage as [s|type].
  - repeat case_match;
      auto using recommendPlaces_touches, freeText_touches, touches_keeps,
        placeInformation_keeps, recommendHotels_keeps, weather_keeps, mapOfPlace_keeps,
        contact_keeps.
  - case_match; auto using freeText_touches, touches_keeps, stickerGreeting_keeps.
Qed.

Lemma welcomeFirstMessage_keeps isFirst s messages :
  KeepsStore (welcomeFirstMessage env isFirst s messages).
Proof. unfold welcomeFirstMessage. keeps. Qed.

End StoreOfDispatcher.

(** X8.  Handling a text message of one user leaves the chat-history
    documents of all other users as they are, in the dispatcher and in
    the webhook handler around it. *)
Theorem other_users_are_untouched (env : Env) (token userId userMessage other : list N)
    (w : World) :
  other ≠ userId →
  store (getAIResponseWithMedia env userId (UText userMessage) token w).2 !! other
  = store w !! other
  ∧ store (handleTextMessage env token userId userMessage w).2 !! other = store w !! other.
Proof.
  intros Hother. split; [by apply dispatcher_touches|].
  revert w other Hother. change (TouchesOnly userId (handleTextMessage env token userId userMessage)).
  unfold handleTextMessage. apply touches_tryCatch.
  - apply touches_bind; [apply touches_keeps, keeps_getDoc|intros userDoc]. cbv zeta.
    apply touches_bind; [apply dispatcher_touches|intros messages].
    apply touches_bind; [apply touches_keeps, welcomeFirstMessage_keeps|intros final].
    apply touches_keeps. destruct final; keeps.
  - apply touches_keeps. keeps.
Qed.

Lemma other_users_are_untouched_witness :
  store (getAIResponseWithMedia Sample.env Sample.someone (UText (str "hello")) (str "token")
                                Sample.start).2 !! str "U2"
  = store Sample.start !! str "U2"
  ∧ store (handleTextMessage Sample.env (str "token") Sample.someone (str "hello")
                             Sample.start).2 !! str "U2"
    = store Sample.start !! str "U2".
Proof.
  apply (other_users_are_untouched Sample.env (str "token") Sample.someone (str "hello")
           (str "U2") Sample.start).
  intros H. vm_compute in H. discriminate H.
Defined.

(** X9.  Only requests that reach the model write to the store: a
    place-information, hotel, weather, map or contact request, as long as
    it is no recommend-places request, leaves the whole store as it is. *)
Theorem lookups_leave_the_store (env : Env) (userId token s : list N) (w : World) :
  isRecommendPlaces s = false →
  startsWith infoPrefix s = true ∨ isRecommendHotels s = true ∨ isWeather s = true
  ∨ startsWith mapPrefix s = true ∨ s = contactRequest →
  store (getAIResponseWithMedia env userId (UText s) token w).2 = store w.
Proof.
  intros Hplaces Hbranch. revert w.
  change (KeepsStore (getAIResponseWithMedia env userId (UText s) token)).
  unfold getAIResponseWithMedia.
  apply keeps_bind; [keeps|intros _]. apply keeps_bind; [keeps|intros _]. cbv zeta.
  apply keeps_bind; [keeps|intros lang]. rewrite Hplaces.
  destruct (startsWith infoPrefix s); [apply placeInformation_keeps|].
  destruct (isRecommendHotels s); [apply recommendHotels_keeps|].
  destruct (isWeather s); [apply weather_keeps|].
  destruct (startsWith mapPrefix s); [apply mapOfPlace_keeps|].
  destruct (decide (s = contactRequest)); [apply contact_keeps|].
  destruct Hbranch as [?|[?|[?|[?|?]]]]; done.
Qed.

Lemma lookups_leave_the_store_witness :
  store (getAIResponseWithMedia Sample.env Sample.someone (UText (str "แผนที่ Doi Suthep"))
                                (str "token") Sample.start).2
  = store Sample.start.
Proof.
  apply (lookups_leave_the_store Sample.env Sample.someone (str "token")
           (str "แผนที่ Doi Suthep") Sample.start).
  - vm_compute. reflexivity.
  - right. right. right. left. vm_compute. reflexivity.
Defined.

(** ** The Search Enricher *)

(** X10.  The web search never raises; every result it returns mentions
    the place name in its title or snippet, case folded, and for the
    hotel context the hotel keyword as well; the results are taken, in
    order, from the items of the service, and there are none when the
    request fails or the service has no items. *)
Theorem search_results_are_relevant (env : Env) (placeName context : list N) (w : World) :
  ∃ results query,
    searchPlaceWithCustomSearch env placeName context w
    = (Ok results, logged (CustomSearch query) w)
    ∧ Forall (λ item,
                let text := toLowerCase env (title item ++ [32] ++ snippet item) in
                includes (toLowerCase env placeName) text = true
                ∧ (context = hotelContext → includes hotelContext text = true))
             results
    ∧ match customSearch env (length (calls w)) query with
      | Some (Some items) => results `sublist_of` items
      | _ => results = []
      end.
Proof.
  unfold searchPlaceWithCustomSearch, tryCatch, bind, remote, ret.
  set (query := if decide (context = hotelContext)
                then placeName ++ str " โรงแรม รีวิว ประเทศไทย"
                else placeName ++ [32] ++ context ++ str " ภาคเหนือ ประเทศไทย").
  destruct (customSearch env (length (calls w)) query) as [[[|item items]|]|] eqn:E.
  - exists [], query. rewrite E. split; [reflexivity|]. split; [constructor|done].
  - eexists _, query. rewrite E. split; [reflexivity|]. split; [|apply sublist_filter].
    apply Forall_forall. intros x [Hx _]%list_elem_of_filter. cbv zeta.
    apply andb_true_iff in Hx as [Hname Hhotel]. split; [done|].
    intros Hcontext. by rewrite decide_True in Hhotel.
  - exists [], query. rewrite E. split; [reflexivity|]. split; [constructor|done].
  - exists [], query. rewrite E. split; [reflexivity|]. split; [constructor|done].
Qed.

Example search_keeps_the_relevant_page :
  (searchPlaceWithCustomSearch Pages.env (str "Hotel A") hotelContext Sample.start).1
  = Ok [Pages.review].
Proof. vm_compute. reflexivity. Qed.

(** ** The carousels *)

Lemma resolveAll_run env (places : list (list N)) w :
  ∃ found,
    mapM (λ place, getLocationFromGooglePlaces env place tourist_attraction) places w
    = (Ok found,
       {| store := store w;
          calls := calls w ++ map (λ place, TextSearch (searchQueryOf env place)
                                                       tourist_attraction) places |})
    ∧ length found = length places.
Proof.
  revert w. induction places as [|place places IH]; intros w.
  - exists []. simpl. unfold ret. rewrite app_nil_r. by destruct w.
  - simpl. unfold bind at 1. rewrite getLocationFromGooglePlaces_run.
    destruct (IH (logged (TextSearch (searchQueryOf env place) tourist_attraction) w))
      as (found & E & Hlen).
    eexists (_ :: found). unfold bind at 1. rewrite E. unfold ret. simpl.
    rewrite <- app_assoc. split; [reflexivity|]. by rewrite Hlen.
Qed.

Lemma length_omap_id {A} (l : list (option A)) : (length (omap id l) ≤ length l)%nat.
Proof. induction l as [|[x|] l IH]; cbn in *; lia. Qed.


(** On the names A, B, A the searches are for A, then for B. *)
Example place_carousel_on_repeated_names :
  let searched name := TextSearch (searchQueryOf Sample.env name) tourist_attraction in
  calls (createRecommendationCarousel Sample.env [str "A"; str "B"; str "A"] Sample.start).2
  = [searched (str "A"); searched (str "B")].
Proof. vm_compute. reflexivity. Qed.



(** ** The webhook handlers *)

Lemma processingError_handler_returns env token :
  Returns (let* errorMsg := translateText env (JStr processingError) (Some (str "th")) in
           tryCatch (sendToLine env token [withQuickReply (ttext errorMsg) (str "th")])
                    (ret ())).
Proof. apply returns_bind; [apply translateText_returns|]. intros t. returns. Qed.

(** What the handler of lines 1156-1168 does: it renders the error text
    and tries one reply with it, which is not even posted when the
    rendering is empty. *)
Lemma processingError_handler_run env token w :
  ∃ text new,
    RenderingOf env processingError (str "th") text
    ∧ Forall (λ c, isLookup c = false) new
    ∧ (let* errorMsg := translateText env (JStr processingError) (Some (str "th")) in
       tryCatch (sendToLine env token [withQuickReply (ttext errorMsg) (str "th")])
                (ret ())) w
      = (Ok (),
         {| store := store w;
            calls := calls w ++ new
                     ++ match text with
                        | [] => []
                        | _ => [Reply token [withQuickReply text (str "th")]]
                        end |}).
Proof.
  destruct (translateText_quiet env processingError (Some (str "th")) w)
    as (t & new & E & Hnew & Hrender).
  exists (ttext t), new. split; [done|]. split; [done|].
  unfold bind. rewrite E. unfold tryCatch, sendToLine, remote, ret, throw. simpl.
  destruct (ttext t) as [|c text]; simpl; [by rewrite app_nil_r|].
  destruct (lineReply env _); unfold logged; simpl; by rewrite <- app_assoc.
Qed.

(** X13.  The handler of a text message never raises, whatever fails
    underneath; when the first read of the store fails, nothing is looked
    up and the model is not asked: the handler renders the error text and
    replies with that one message and the menu in Thai. *)
Theorem text_handler_never_raises (env : Env) (token userId userMessage : list N)
    (w : World) :
  (∃ w', handleTextMessage env token userId userMessage w = (Ok (), w'))
  ∧ (storeUp env (length (calls w)) = false →
     ∃ text new,
       RenderingOf env processingError (str "th") text
       ∧ Forall (λ c, isLookup c = false) new
       ∧ handleTextMessage env token userId userMessage w
         = (Ok (),
            {| store := store w;
               calls := calls w ++ [StoreGet userId] ++ new
                        ++ match text with
                           | [] => []
                           | _ => [Reply token [withQuickReply text (str "th")]]
                           end |})).
Proof.
  split.
  - assert (Returns (handleTextMessage env token userId userMessage)) as Hreturns.
    { unfold handleTextMessage. apply returns_tryCatch, processingError_handler_returns. }
    destruct (Hreturns w) as ([] & w' & E). by exists w'.
  - intros Hdown. unfold handleTextMessage, tryCatch at 1, bind at 1, getDoc. rewrite Hdown.
    destruct (processingError_handler_run env token (logged (StoreGet userId) w))
      as (text & new & Hrender & Hnew & E).
    exists text, new. split; [done|]. split; [done|]. rewrite E. simpl.
    by rewrite <- app_assoc.
Qed.

Lemma text_handler_never_raises_witness :
  ∃ text new,
    RenderingOf Offline.env processingError (str "th") text
    ∧ Forall (λ c, isLookup c = false) new
    ∧ handleTextMessage Offline.env (str "token") Sample.someone (str "hello") Sample.start
      = (Ok (),
         {| store := store Sample.start;
            calls := calls Sample.start ++ [StoreGet Sample.someone] ++ new
                     ++ match text with
                        | [] => []
                        | _ => [Reply (str "token") [withQuickReply text (str "th")]]
                        end |}).
Proof.
  destruct (text_handler_never_raises Offline.env (str "token") Sample.someone (str "hello")
              Sample.start) as [_ Hdown].
  apply Hdown. reflexivity.
Defined.

Lemma greetingText_nonempty : greetingText ≠ [].
Proof. intros H. vm_compute in H. discriminate H. Qed.

(** X14.  On a sticker, when the store answers, the handler hands to the
    reply call exactly one message, the greeting (as it is or as the
    translation service renders it) with the menu in Thai; its text is
    never empty, so the message always passes the check of the transport,
    and when the reply request succeeds nothing else is sent. *)
Theorem sticker_handler_replies_once (env : Env) (token userId : list N) (w : World) :
  storeUp env (S (length (calls w))) = true →
  ∃ text w1,
    text ≠ [] ∧ RenderingOf env greetingText (str "th") text
    ∧ getAIResponseWithMedia env userId (UObject (str "sticker")) token w
      = (Ok [withQuickReply text (str "th")], w1)
    ∧ (lineReply env (length (calls w1)) = true →
       handleStickerMessage env token userId w
       = (Ok (), logged (Reply token [withQuickReply text (str "th")]) w1)).
Proof.
  intros Hup.
  pose proof (dispatcher_start env userId (UObject (str "sticker")) token w Hup) as Hstart.
  unfold bind at 1 in Hstart. unfold ret at 1 in Hstart.
  rewrite decide_True in Hstart by done. unfold stickerGreeting, bind in Hstart.
  destruct (translateText_quiet env greetingText (Some (str "th"))
              {| store := store w;
                 calls := calls w ++ [LoadingStart userId 5; StoreGet userId] |})
    as (t & new & Ht & _ & Hrender).
  rewrite Ht in Hstart. unfold ret in Hstart.
  assert (orElse (ttext t) greetingText ≠ []) as Hne
    by apply orElse_nonempty, greetingText_nonempty.
  eexists _, _. split; [exact Hne|]. split; [|split; [exact Hstart|]].
  - destruct (ttext t); [by left|exact Hrender].
  - intros Hreply. unfold handleStickerMessage, tryCatch at 1, bind at 1. rewrite Hstart.
    unfold sendToLine, remote. simpl in *.
    destruct (orElse (ttext t) greetingText) as [|c text]; [done|]. simpl.
    by rewrite Hreply.
Qed.

Lemma sticker_handler_replies_once_witness :
  ∃ text w1,
    text ≠ [] ∧ RenderingOf Sample.env greetingText (str "th") text
    ∧ getAIResponseWithMedia Sample.env Sample.someone (UObject (str "sticker")) (str "token")
                             Sample.start
      = (Ok [withQuickReply text (str "th")], w1)
    ∧ (lineReply Sample.env (length (calls w1)) = true →
       handleStickerMessage Sample.env (str "token") Sample.someone Sample.start
       = (Ok (), logged (Reply (str "token") [withQuickReply text (str "th")]) w1)).
Proof.
  apply (sticker_handler_replies_once Sample.env (str "token") Sample.someone Sample.start).
  reflexivity.
Defined.

(** ** The travel-plan route *)

Lemma flex_is_valid m : isFlex m = true → validMessage m = true.
Proof. unfold isFlex, validMessage. by destruct (body m). Qed.

Lemma planHeading_nonempty env body aiResponse heading :
  planHeading env body aiResponse = Some heading → heading ≠ [].
Proof.
  unfold planHeading.
  destruct (interpolated env (startLocation body)) as [origin|]; [|done].
  destruct (interpolated env (destination body)) as [goal|]; [|done].
  unfold mbind, option_bind. intros Hsome ->. apply (inj Some) in Hsome.
  apply app_eq_nil in Hsome as [H _]. vm_compute in H. discriminate H.
Qed.

Lemma aiPrompt_heading env body prompt aiResponse :
  aiPrompt env body = Some prompt → is_Some (planHeading env body aiResponse).
Proof.
  unfold aiPrompt, planHeading.
  destruct (interpolated env (startLocation body)) as [origin|]; [|done].
  destruct (interpolated env (destination body)) as [goal|]; [|done].
  unfold mbind, option_bind. by eexists.
Qed.

Lemma missingField_userId body :
  missingField body = false → ∃ userId, planUserId body = Some userId ∧ userId ≠ [].
Proof.
  unfold missingField. intros [H _]%orb_false_iff.
  destruct (planUserId body) as [[|c userId]|]; [done| |done]. by eexists.
Qed.

Lemma flex_or_nothing (m : Message) :
  Forall (λ x, isFlex x = true) (if isFlex m then [m] else [])
  ∧ (length (if isFlex m then [m] else []) ≤ 1)%nat.
Proof. destruct (isFlex m) eqn:E; split; simpl; try lia; by repeat constructor. Qed.



(** A destination that is not a string: the model is asked and the places
    of its answer are looked up, then the request ends with 500. *)
Example plan_with_a_number_as_destination :
  let body :=
    {| planUserId := Some Sample.someone;
       startLocation := Some (JsonStr (str "Bangkok"));
       destination := Some (JsonNum 7);
       budget := Some (JsonNum 5000);
       preference := Some (JsonStr (str "nature"));
       travelWith := Some (JsonStr (str "family"));
       transport := Some (JsonStr (str "car"));
       travelDateStart := Some (JsonStr (str "2025-01-01"));
       travelDateEnd := Some (JsonStr (str "2025-01-03")) |} in
  (submitTravelPlan Sample.env (λ _, true) body Sample.start).1 = Ok 500
  ∧ map (λ c, match c with
              | Token | Complete _ => 1
              | StoreGet _ | StoreSet _ => 2
              | TextSearch _ _ => 3
              | _ => 0
              end)
        (calls (submitTravelPlan Sample.env (λ _, true) body Sample.start).2)
    = [1; 2; 1; 2; 3; 3].
Proof. vm_compute. split; reflexivity. Qed.

(** ** The map branch *)

(** X16.  For a map request whose place resolves, the reply is the
    location message with the address and coordinates of the resolved
    place followed by the follow-up with the menu; but a place whose
    latitude or longitude is missing or 0 is answered like a place that
    is not found, with the single not-found text. *)
Theorem map_reply_needs_nonzero_coordinates (env : Env) (s lang : list N) (w : World)
    (place : PlaceRecord) :
  let placeName := trim (removeFirst [mapPrefix] s) in
  resolution env (length (calls w)) placeName = Some place →
  ∃ text w',
    mapOfPlace env s lang w
    = (Ok (match orNA (latitude place), orNA (longitude place) with
           | Some la, Some lo =>
             [plain (Location placeName (address place) la lo); withQuickReply text lang]
           | _, _ => [withQuickReply text lang]
           end), w')
    ∧ RenderingOf env
        (match orNA (latitude place), orNA (longitude place) with
         | Some _, Some _ => moreInfo
         | _, _ => str "ไม่พบข้อมูลแผนที่ของ " ++ quoted placeName
                   ++ str " กรุณาตรวจสอบชื่อสถานที่"
         end) lang text.
Proof.
  cbv zeta. intros Hplace. unfold mapOfPlace. cbv zeta. unfold bind at 1.
  rewrite getLocationFromGooglePlaces_run.
  fold (resolution env (length (calls w)) (trim (removeFirst [mapPrefix] s))). rewrite Hplace.
  destruct (orNA (latitude place)) as [la|]; [destruct (orNA (longitude place)) as [lo|]|];
    match goal with
    | |- context [translateText env (JStr ?x) (Some lang)] =>
      destruct (translateText_quiet env x (Some lang)
                  (logged (TextSearch (searchQueryOf env (trim (removeFirst [mapPrefix] s)))
                                      tourist_attraction) w))
        as (t & new & E & _ & Hrender)
    end;
    exists (ttext t); eexists; unfold bind; rewrite E; (split; [reflexivity|exact Hrender]).
Qed.

Lemma map_reply_needs_nonzero_coordinates_witness :
  ∃ place text w',
    placeRecord Sample.doiSuthep = Some place
    ∧ mapOfPlace Sample.env (str "แผนที่ Doi Suthep") (str "th") Sample.start
      = (Ok [plain (Location (str "Doi Suthep") (address place)
                            (188049 # 10000) (989216 # 10000));
             withQuickReply text (str "th")], w').
Proof.
  eexists. edestruct (map_reply_needs_nonzero_coordinates Sample.env (str "แผนที่ Doi Suthep")
                        (str "th") Sample.start) as (text & w' & Hrun & _).
  - vm_compute. reflexivity.
  - exists text, w'. split; [vm_compute; reflexivity|]. exact Hrun.
Defined.

(** ** The quick-reply menu *)

(** X17.  The menu has three actions in every language, and what they
    do (the two texts sent and the link opened) does not depend on the
    language; only Thai has labels of its own, every other language
    gets the same menu. *)
Theorem menu_actions_do_not_depend_on_language (lang1 lang2 : list N) :
  length (items (createQuickReply lang1)) = 3%nat
  ∧ map effectOf (items (createQuickReply lang1)) = map effectOf (items (createQuickReply lang2))
  ∧ (lang1 ≠ str "th" → lang2 ≠ str "th" → createQuickReply lang1 = createQuickReply lang2).
Proof.
  split; [done|]. split; [done|]. intros H1 H2. unfold createQuickReply.
  by rewrite !bool_decide_eq_false_2.
Qed.

Lemma menu_actions_do_not_depend_on_language_witness :
  createQuickReply (str "en") = createQuickReply (str "ja").
Proof.
  destruct (menu_actions_do_not_depend_on_language (str "en") (str "ja")) as (_ & _ & Hsame).
  apply Hsame; intros H; vm_compute in H; discriminate H.
Defined.

(** ** The destination of a request *)

Lemma removeFirst_unfold alts s :
  removeFirst alts s
  = match firstAlt alts s with
    | Some a => drop (length a) s
    | None => match s with [] => [] | c :: r => c :: removeFirst alts r end
    end.
Proof. by destruct s. Qed.

Lemma firstAlt_found alts s :
  existsb (λ p, startsWith p s) alts = true →
  ∃ keyword rest, firstAlt alts s = Some keyword ∧ keyword ∈ alts ∧ s = keyword ++ rest.
Proof.
  induction alts as [|a alts IH]; simpl; [done|].
  destruct (startsWith a s) eqn:E.
  - intros _. apply startsWith_spec in E as [rest ->]. exists a, rest.
    split; [done|]. split; [by left|done].
  - intros H. destruct (IH H) as (keyword & rest & Hfirst & Hin & Hs).
    exists keyword, rest. split; [done|]. split; [by right|done].
Qed.

Lemma removeFirst_at_start alts d keyword rest :
  firstAlt alts (keyword ++ rest) = Some keyword →
  orElse (trim (removeFirst alts (keyword ++ rest))) d
  = match trim rest with [] => d | _ => trim rest end.
Proof.
  intros Hfirst. rewrite removeFirst_unfold, Hfirst, (drop_app_length keyword rest).
  reflexivity.
Qed.

Lemma isRecommendPlaces_unfold s :
  isRecommendPlaces s = existsb (λ p, startsWith p s) placePrefixes.
Proof. reflexivity. Qed.

Lemma placesDestination_unfold s :
  placesDestination s = orElse (trim (removeFirst placePrefixes s)) region.
Proof. reflexivity. Qed.

(** X18.  The destination of a recommend-places request is what follows
    the keyword the message starts with, trimmed, and the region when
    nothing follows; a later occurrence of a keyword is left in place. *)
Theorem destination_follows_the_keyword (s : list N) :
  isRecommendPlaces s = true →
  ∃ keyword rest,
    keyword ∈ placePrefixes ∧ s = keyword ++ rest
    ∧ placesDestination s = match trim rest with [] => region | _ => trim rest end.
Proof.
  intros Hs. rewrite isRecommendPlaces_unfold in Hs.
  apply firstAlt_found in Hs as (keyword & rest & Hfirst & Hin & ->).
  exists keyword, rest. split; [exact Hin|]. split; [reflexivity|].
  rewrite placesDestination_unfold.
  exact (removeFirst_at_start placePrefixes region keyword rest Hfirst).
Qed.

Lemma destination_follows_the_keyword_witness :
  ∃ keyword rest,
    keyword ∈ placePrefixes ∧ str "แนะนำที่เที่ยว เชียงใหม่" = keyword ++ rest
    ∧ placesDestination (str "แนะนำที่เที่ยว เชียงใหม่")
      = match trim rest with [] => region | _ => trim rest end.
Proof.
  apply (destination_follows_the_keyword (str "แนะนำที่เที่ยว เชียงใหม่")).
  vm_compute. reflexivity.
Defined.

(** ** The cost of the Hotel Finder *)

(** X19.  The Hotel Finder looks the destination up first, Chiang Mai
    only when the destination does not resolve and Bangkok only when
    neither does; after these one to three text searches it issues the
    nearby search and no other request. *)
Theorem hotel_finder_stops_at_first_resolution (env : Env) (placeName : list N) (w : World) :
  let n := length (calls w) in
  let search p := TextSearch (searchQueryOf env p) tourist_attraction in
  ∃ hotels lookups la lo,
    getHotelsNearPlace env placeName w
    = (Ok hotels,
       {| store := store w;
          calls := calls w ++ lookups ++ [NearbySearch la lo 20000 lodging] |})
    ∧ lookups
      = match resolution env n placeName with
        | Some _ => [search placeName]
        | None =>
          match resolution env (S n) (str "Chiang Mai, Thailand") with
          | Some _ => [search placeName; search (str "Chiang Mai, Thailand")]
          | None => [search placeName; search (str "Chiang Mai, Thailand");
                     search (str "Bangkok, Thailand")]
          end
        end.
Proof.
  cbv zeta.
  assert (∃ anchor lookups,
            searchLocationOf env placeName w
            = (Ok anchor, {| store := store w; calls := calls w ++ lookups |})
            ∧ lookups
              = match resolution env (length (calls w)) placeName with
                | Some _ => [TextSearch (searchQueryOf env placeName) tourist_attraction]
                | None =>
                  match resolution env (S (length (calls w))) (str "Chiang Mai, Thailand") with
                  | Some _ =>
                    [TextSearch (searchQueryOf env placeName) tourist_attraction;
                     TextSearch (searchQueryOf env (str "Chiang Mai, Thailand"))
                                tourist_attraction]
                  | None =>
                    [TextSearch (searchQueryOf env placeName) tourist_attraction;
                     TextSearch (searchQueryOf env (str "Chiang Mai, Thailand"))
                                tourist_attraction;
                     TextSearch (searchQueryOf env (str "Bangkok, Thailand"))
                                tourist_attraction]
                  end
                end) as (anchor & lookups & Hanchor & Hlookups).
  { unfold searchLocationOf, bind.
    rewrite getLocationFromGooglePlaces_run. fold (resolution env (length (calls w)) placeName).
    destruct (resolution env (length (calls w)) placeName) as [p|].
    { eexists _, _. split; [reflexivity|done]. }
    rewrite getLocationFromGooglePlaces_run, logged_instant.
    fold (resolution env (S (length (calls w))) (str "Chiang Mai, Thailand")).
    destruct (resolution env (S (length (calls w))) (str "Chiang Mai, Thailand")) as [p|].
    { eexists _, _. split; [|reflexivity]. unfold ret, logged. simpl.
      by rewrite <- app_assoc. }
    rewrite getLocationFromGooglePlaces_run.
    eexists _, _. split; [|reflexivity]. unfold ret, logged. simpl.
    by rewrite <- !app_assoc. }
  rewrite (getHotelsNearPlace_after _ _ _ _ _ Hanchor).
  eexists _, lookups, anchor.1, anchor.2. split; [|exact Hlookups].
  unfold logged. simpl. by rewrite <- app_assoc.
Qed.

(** ** Ranking twice *)

Lemma sortBy_sorted_id {A} (cmp : A → A → Q) l :
  StronglySorted (before cmp) l → sortBy cmp l = l.
Proof.
  induction 1 as [|x l Hl IH Hx]; [done|]. simpl. rewrite IH.
  destruct l as [|y r]; [done|]. simpl.
  inversion Hx as [|? ? Hxy _]; subst. unfold before in Hxy.
  apply Qle_bool_iff in Hxy. by rewrite Hxy.
Qed.

Lemma filter_all {A} (P : A → Prop) `{∀ x, Decision (P x)} l : Forall P l → filter P l = l.
Proof.
  induction 1 as [|x l Hx _ IH]; [done|]. rewrite filter_cons, decide_True by done.
  by rewrite IH.
Qed.

Lemma byRating_sorted l : StronglySorted (before byRating) (sortBy byRating l).
Proof.
  apply sortBy_sorted.
  - intros a b. rewrite !byRating_before. apply ranksAtLeast_total.
  - intros a b c. rewrite !byRating_before. apply ranksAtLeast_trans.
Qed.

(** X20.  Ranking is stable under repetition: a list of results that all
    have a geometry and are already in rating order, ties in whatever
    order they come, is returned as it is, and ranking a ranked list
    changes nothing. *)
Theorem ranking_keeps_ranked_lists (l : list Candidate) :
  (Forall (λ c, is_Some (geometry c)) l → StronglySorted ranksAtLeast l →
   rankCandidates l = l)
  ∧ rankCandidates (rankCandidates l) = rankCandidates l.
Proof.
  assert (∀ k, Forall (λ c, is_Some (geometry c)) k →
               filter (λ c, hasGeometry c = true) k = k) as Hfilter.
  { intros k Hk. apply filter_all. eapply Forall_impl; [exact Hk|].
    intros c [g Hg]. unfold hasGeometry. by rewrite Hg. }
  split.
  - intros Hgeo Hsorted. unfold rankCandidates. rewrite (Hfilter l Hgeo).
    apply sortBy_sorted_id. eapply StronglySorted_weaken; [|exact Hsorted].
    intros a b. apply byRating_before.
  - unfold rankCandidates at 1. rewrite Hfilter.
    + apply sortBy_sorted_id, byRating_sorted.
    + apply Forall_forall. intros c Hc. by apply rankCandidates_geometry in Hc as [_ ?].
Qed.

Lemma ranking_keeps_ranked_lists_witness :
  rankCandidates [Sample.doiSuthep; Sample.viewpoint; Sample.unrated]
  = [Sample.doiSuthep; Sample.viewpoint; Sample.unrated].
Proof.
  destruct (ranking_keeps_ranked_lists [Sample.doiSuthep; Sample.viewpoint; Sample.unrated])
    as [Hranked _].
  apply Hranked.
  - repeat constructor; by eexists.
  - repeat constructor; vm_compute; intuition discriminate.
Defined.

(** ** A place that is not found *)

(** X21.  When the place of a place-information request does not
    resolve, the reply is one text message, the not-found text naming
    the place with the menu; after the text search no details and no web
    search are requested. *)
Theorem unknown_place_gets_not_found (env : Env) (s lang : list N) (w : World) :
  let placeName := trim (removeFirst [infoPrefix] s) in
  resolution env (length (calls w)) placeName = None →
  ∃ text new,
    placeInformation env s lang w
    = (Ok [withQuickReply text lang],
       {| store := store w;
          calls := calls w ++ [TextSearch (searchQueryOf env placeName) tourist_attraction]
                   ++ new |})
    ∧ Forall (λ c, isLookup c = false) new
    ∧ RenderingOf env (str "ไม่พบข้อมูลของ " ++ quoted placeName) lang text.
Proof.
  cbv zeta. intros Hnone. unfold placeInformation. cbv zeta. unfold bind at 1.
  rewrite getLocationFromGooglePlaces_run.
  fold (resolution env (length (calls w)) (trim (removeFirst [infoPrefix] s))). rewrite Hnone.
  destruct (translateText_quiet env
              (str "ไม่พบข้อมูลของ " ++ quoted (trim (removeFirst [infoPrefix] s))) (Some lang)
              (logged (TextSearch (searchQueryOf env (trim (removeFirst [infoPrefix] s)))
                                  tourist_attraction) w))
    as (t & new & E & Hnew & Hrender).
  exists (ttext t), new. unfold bind. rewrite E. unfold ret, logged. simpl.
  rewrite <- app_assoc. done.
Qed.

Lemma unknown_place_gets_not_found_witness :
  ∃ text new,
    placeInformation Sample.env (str "ข้อมูล Atlantis") (str "th") Sample.start
    = (Ok [withQuickReply text (str "th")],
       {| store := store Sample.start;
          calls := calls Sample.start
                   ++ [TextSearch (searchQueryOf Sample.env
                                     (trim (removeFirst [infoPrefix] (str "ข้อมูล Atlantis"))))
                                  tourist_attraction]
                   ++ new |})
    ∧ Forall (λ c, isLookup c = false) new
    ∧ RenderingOf Sample.env
        (str "ไม่พบข้อมูลของ "
         ++ quoted (trim (removeFirst [infoPrefix] (str "ข้อมูล Atlantis"))))
        (str "th") text.
Proof.
  apply (unknown_place_gets_not_found Sample.env (str "ข้อมูล Atlantis") (str "th")
           Sample.start).
  vm_compute. reflexivity.
Defined.
